(** * pyrepl.nvim: the code-execution server [bin/server.py]

    A shallow embedding of the server's functions and of its threads
    (the request-serving thread and the background execution workers),
    and the properties of its admission gate, its execution pipeline,
    its transcript logger and its ANSI sanitizer.

    Python text is modelled by [string]; a character stands for its code
    point (code points below 256).  Library functions the server calls
    ([re], [textwrap.dedent], [str.strip], [os.path.join]) are written
    out after their Python definitions; the collaborators whose result
    the server only passes on (the IPython shell and [json.loads]) are
    fields of an interface; the clock and the outcome of console and
    file operations are inputs of the steps. *)

From Stdlib Require Import String Ascii List Bool Arith Lia DecimalString.
From stdpp Require Import base option gmap strings.
Import ListNotations.

Local Open Scope string_scope.
Local Open Scope bool_scope.
Local Set Warnings "-register-all".

(** ** Text *)

Module Text.

Definition code (c : ascii) : nat := nat_of_ascii c.

(** [lo <= ord(c) <= hi], a character range of a regular expression *)
Definition in_range (lo hi : nat) (c : ascii) : bool :=
  (lo <=? code c)%nat && (code c <=? hi)%nat.

Definition nl : string := String (ascii_of_nat 10) EmptyString.

(** [sep.join(l)] on a list of [str] *)
Fixpoint join (sep : string) (l : list string) : string :=
  match l with
  | [] => ""
  | [x] => x
  | x :: rest => x +:+ sep +:+ join sep rest
  end.

(** [text.split(sep)] for a one-character separator: never empty *)
Fixpoint split (sep : ascii) (s : string) : list string :=
  match s with
  | EmptyString => [""]
  | String c t =>
      if Ascii.eqb c sep then "" :: split sep t
      else match split sep t with
           | l :: ls => String c l :: ls
           | [] => [String c ""]
           end
  end.

Fixpoint drop_while (p : ascii -> bool) (s : string) : string :=
  match s with
  | String c t => if p c then drop_while p t else s
  | EmptyString => EmptyString
  end.

Fixpoint take_while (p : ascii -> bool) (s : string) : string :=
  match s with
  | String c t => if p c then String c (take_while p t) else EmptyString
  | EmptyString => EmptyString
  end.

Fixpoint rev_string (s : string) (acc : string) : string :=
  match s with
  | String c t => rev_string t (String c acc)
  | EmptyString => acc
  end.

(** [str.isspace] on one character: the Unicode white space below 256 *)
Definition is_space (c : ascii) : bool :=
  in_range 9 13 c || in_range 28 32 c
  || (code c =? 133)%nat || (code c =? 160)%nat.

(** [text.strip()] *)
Definition strip (s : string) : string :=
  let r := drop_while is_space (rev_string (drop_while is_space s) "") in
  rev_string r "".

Fixpoint drop (n : nat) (s : string) : string :=
  match n, s with
  | S m, String _ t => drop m t
  | _, _ => s
  end.

Fixpoint take (n : nat) (s : string) : string :=
  match n, s with
  | S m, String c t => String c (take m t)
  | _, _ => EmptyString
  end.

Fixpoint mem (c : ascii) (s : string) : bool :=
  match s with
  | String d t => Ascii.eqb c d || mem c t
  | EmptyString => false
  end.

End Text.

(** ** Regular expressions, as [re] matches them

    A backtracking matcher in continuation style: [re_match r s k] tries
    the ways [r] can match a prefix of [s] in the order Python's engine
    tries them (left alternative first, the greedy star from the longest
    repetition down) and gives the first for which the continuation [k]
    accepts the rest of the text. *)

Module Regex.

Inductive re : Type :=
| Chr (p : ascii -> bool)          (* a literal or a character class *)
| Seq (a b : re)
| Alt (a b : re)
| Star (p : ascii -> bool)         (* greedy [cls*] *)
| Plus (p : ascii -> bool).        (* greedy [cls+] *)

Fixpoint star {A} (p : ascii -> bool) (s : string) (k : string -> option A)
  : option A :=
  match s with
  | String c t =>
      if p c then
        match star p t k with
        | Some x => Some x
        | None => k s
        end
      else k s
  | EmptyString => k s
  end.

Fixpoint re_match {A} (r : re) (s : string) (k : string -> option A)
  : option A :=
  match r with
  | Chr p =>
      match s with
      | String c t => if p c then k t else None
      | EmptyString => None
      end
  | Seq a b => re_match a s (fun t => re_match b t k)
  | Alt a b =>
      match re_match a s k with
      | Some x => Some x
      | None => re_match b s k
      end
  | Star p => star p s k
  | Plus p =>
      match s with
      | String c t => if p c then star p t k else None
      | EmptyString => None
      end
  end.

(** the number of characters of the match of [r] at the start of [s] *)
Definition match_len (r : re) (s : string) : option nat :=
  re_match r s (fun rest => Some (String.length s - String.length rest)%nat).

(** [r.sub(repl, s)] for a pattern that matches no empty text: the
    matches found scanning from the left, none overlapping another,
    are replaced by [repl].  [skip] counts the characters of a match
    still to pass over. *)
Fixpoint sub_from (r : re) (repl : string) (skip : nat) (s : string) : string :=
  match s with
  | EmptyString => EmptyString
  | String c t =>
      match skip with
      | S n => sub_from r repl n t
      | O =>
          match match_len r s with
          | Some (S n) => repl +:+ sub_from r repl n t
          | _ => String c (sub_from r repl 0 t)
          end
      end
  end.

Definition sub (r : re) (repl : string) (s : string) : string :=
  sub_from r repl 0 s.

End Regex.

(** ** The ANSI sanitizer *)

Definition ESC : ascii := ascii_of_nat 27.

Definition is_char (c : ascii) : ascii -> bool := Ascii.eqb c.

(** [ansi_regex = re.compile(r"\x1B(?:[@-Z\\-_]|\[[0-?]*[ -/]*[@-~])")]:
    the class [[@-Z\\-_]] is the two ranges [@]..[Z] and [\]..[_]. *)
Definition ansi_regex : Regex.re :=
  Regex.Seq (Regex.Chr (is_char ESC))
    (Regex.Alt
       (Regex.Chr (fun c => Text.in_range 64 90 c || Text.in_range 92 95 c))
       (Regex.Seq (Regex.Chr (is_char "["%char))
          (Regex.Seq (Regex.Star (Text.in_range 48 63))
             (Regex.Seq (Regex.Star (Text.in_range 32 47))
                (Regex.Chr (Text.in_range 64 126)))))).

(** [strip_ansi_codes]: [ansi_regex.sub("", text) if text else ""] *)
Definition strip_ansi_codes (text : string) : string :=
  match text with
  | EmptyString => ""
  | _ => Regex.sub ansi_regex "" text
  end.

(** an escape sequence starts at the first character of [s] *)
Definition escape_at (s : string) : bool :=
  match Regex.match_len ansi_regex s with
  | Some _ => true
  | None => false
  end.

(** an escape sequence starts somewhere in [s] *)
Fixpoint contains_escape (s : string) : bool :=
  match s with
  | EmptyString => false
  | String _ t => escape_at s || contains_escape t
  end.

(** every ESC character of [s] starts an escape sequence *)
Fixpoint escapes_complete (s : string) : bool :=
  match s with
  | EmptyString => true
  | String c t =>
      (negb (is_char ESC c) || escape_at s) && escapes_complete t
  end.

(** every character of [s] is one of [p] *)
Fixpoint all_chars (p : ascii -> bool) (s : string) : bool :=
  match s with
  | EmptyString => true
  | String c t => p c && all_chars p t
  end.

(** [a] is [b] with some characters left out *)
Fixpoint is_subseq (a b : string) : bool :=
  match b with
  | EmptyString =>
      match a with
      | EmptyString => true
      | String _ _ => false
      end
  | String y b' =>
      match a with
      | EmptyString => true
      | String x a' => if Ascii.eqb x y then is_subseq a' b' else is_subseq a b'
      end
  end.

(** ** De-indentation: [textwrap.dedent]

    After CPython's definition: white-space-only lines are emptied, the
    margin is the longest common prefix of the leading blanks and tabs
    of the other non-empty lines, and the margin is taken off every line
    that starts with it. *)

Module Textwrap.

Definition is_blank (c : ascii) : bool :=
  Ascii.eqb c " "%char || Ascii.eqb c (ascii_of_nat 9).

(** [_whitespace_only_re], on one line: one or more blanks and tabs
    and nothing else *)
Definition whitespace_only (l : string) : bool :=
  match l with
  | EmptyString => false
  | _ => match Text.drop_while is_blank l with
         | EmptyString => true
         | _ => false
         end
  end.

Definition blank_out (l : string) : string :=
  if whitespace_only l then "" else l.

(** [_leading_whitespace_re], on one line: the leading blanks and
    tabs (the group) of a line that has some other character *)
Definition indent_of (l : string) : option string :=
  match Text.drop_while is_blank l with
  | EmptyString => None
  | _ => Some (Text.take_while is_blank l)
  end.

Fixpoint startswith (s p : string) : bool :=
  match p, s with
  | EmptyString, _ => true
  | String a p', String b s' => Ascii.eqb a b && startswith s' p'
  | String _ _, EmptyString => false
  end.

(** the loop over [zip(margin, indent)]: cut at the first difference *)
Fixpoint common_prefix (a b : string) : string :=
  match a, b with
  | String x a', String y b' =>
      if Ascii.eqb x y then String x (common_prefix a' b') else ""
  | _, _ => ""
  end.

Definition update_margin (margin : option string) (indent : string)
  : option string :=
  match margin with
  | None => Some indent
  | Some m =>
      if startswith indent m then Some m
      else if startswith m indent then Some indent
      else Some (common_prefix m indent)
  end.

Definition find_margin (lines : list string) : option string :=
  fold_left update_margin (omap indent_of lines) None.

Definition remove_margin (m : string) (l : string) : string :=
  if startswith l m then Text.drop (String.length m) l else l.

Definition dedent (text : string) : string :=
  let lines := map blank_out (Text.split (ascii_of_nat 10) text) in
  match find_margin lines with
  | Some (String c m) =>
      Text.join Text.nl (map (remove_margin (String c m)) lines)
  | _ => Text.join Text.nl lines
  end.

(** *** What de-indentation is to give

    The longest common leading whitespace of the lines of a text: blanks
    and tabs that every line with another character starts with, and
    that every such run of blanks and tabs is a prefix of.  Lines of
    blanks and tabs only do not count, and come out empty. *)

(** the line has a character that is neither a blank nor a tab *)
Definition has_text (l : string) : bool := negb (all_chars is_blank l).

Definition common_indent (m : string) (lines : list string) : Prop :=
  all_chars is_blank m = true
  ∧ ∀ l, l ∈ lines → has_text l = true → startswith l m = true.

Definition longest_common_indent (m : string) (lines : list string) : Prop :=
  common_indent m lines
  ∧ ∀ m', common_indent m' lines → startswith m m' = true.

(** the line without its first [length m] characters *)
Definition deindent (m : string) (l : string) : string :=
  if has_text l then Text.drop (String.length m) l else "".

(** [unit] is [text] with the longest common leading whitespace of its
    lines removed *)
Definition deindented (text unit : string) : Prop :=
  let lines := Text.split (ascii_of_nat 10) text in
  ∃ m, (Exists (λ l, has_text l = true) lines → longest_common_indent m lines)
       ∧ unit = Text.join Text.nl (map (deindent m) lines).

End Textwrap.

(** ** Values the server exchanges with its collaborators *)

(** A Python exception, as far as the server looks at it: [str(e)] and
    its rendering by [traceback.format_exception] / [format_exc]. *)
Record exn : Type := {
  exn_type : string;
  exn_str : string;
  exn_traceback : string;
}.

Definition raise_ (type msg : string) : exn :=
  {| exn_type := type; exn_str := msg;
     exn_traceback := type +:+ ": " +:+ msg +:+ Text.nl |}.

(** What [json.loads] returns. A [JDict] lists the items of the [dict]. *)
Inductive json : Type :=
| JNone
| JBool (b : bool)
| JInt (n : Z)
| JFloat (repr : string)
| JStr (s : string)
| JList (l : list json)
| JDict (items : list (string * json)).

Definition type_name (v : json) : string :=
  match v with
  | JNone => "NoneType"
  | JBool _ => "bool"
  | JInt _ => "int"
  | JFloat _ => "float"
  | JStr _ => "str"
  | JList _ => "list"
  | JDict _ => "dict"
  end.

(** [d.get(key, default)] *)
Fixpoint dict_get (items : list (string * json)) (key : string) (default : json)
  : json :=
  match items with
  | [] => default
  | (k, v) :: rest => if String.eqb k key then v else dict_get rest key default
  end.

(** [IPython]'s [ExecutionResult] *)
Record exec_result : Type := {
  error_before_exec : option exn;
  error_in_exec : option exn;
}.

(** [run_cell] under [capture_output]: it returns, with the captured
    streams, or an exception leaves the [with] block: an [Exception]
    ([Raised]), or a [BaseException] that is no [Exception], such as
    [KeyboardInterrupt] or [SystemExit] ([Escaped]). *)
Inductive cell_outcome (S : Type) : Type :=
| Returned (sh : S) (stdout stderr : string) (r : exec_result)
| Raised (sh : S) (e : exn)
| Escaped (sh : S) (e : exn).
Arguments Returned {S} sh stdout stderr r.
Arguments Raised {S} sh e.
Arguments Escaped {S} sh e.

(** The collaborators: the execution engine and the JSON decoder. *)
Class Collaborators : Type := {
  Shell : Type;
  (** [InteractiveShellEmbed(config=config, banner1="", exit_msg="")] *)
  new_shell : Shell;
  (** [shell.run_cell(raw, store_history=False, silent=silent)] *)
  run_cell : Shell -> string -> bool -> cell_outcome Shell;
  (** [shell.reset(new_session=True)] *)
  reset : Shell -> Shell;
  (** the names that the cells run so far have bound in the shell's user
      namespace *)
  bindings : Shell -> list string;
  (** what IPython documents of [reset]: it clears the namespaces, so
      none of these names is left *)
  reset_bindings : forall sh, bindings (reset sh) = [];
  (** [json.loads(text)]: a [JSONDecodeError] or the value *)
  json_loads : string -> exn + json;
}.

Definition truthy (s : string) : bool := negb (String.eqb s "").

(** [x or ""] for [x] that is [None] or a [str] *)
Definition or_empty (x : option string) : string := default "" x.

Definition nat_to_string (n : nat) : string :=
  NilEmpty.string_of_uint (Nat.to_uint n).

(** [sep.join(items)] on what [json.loads] gave: a [TypeError] at the
    first item that is not a [str] *)
Fixpoint str_items (i : nat) (items : list json) : exn + list string :=
  match items with
  | [] => inr []
  | JStr s :: rest =>
      match str_items (S i) rest with
      | inr l => inr (s :: l)
      | inl e => inl e
      end
  | v :: _ =>
      inl (raise_ "TypeError"
             ("sequence item " +:+ nat_to_string i
              +:+ ": expected str instance, " +:+ type_name v +:+ " found"))
  end.

Definition str_join (sep : string) (items : list json) : exn + string :=
  match str_items 0 items with
  | inr l => inr (Text.join sep l)
  | inl e => inl e
  end.

(** [format_code]: the text handed to [Syntax] *)
Definition format_code (code : list string) : string :=
  Text.strip (">> " +:+ Text.join (Text.nl +:+ "   ") code).

Section Validation.
Context `{C : Collaborators}.

(** [validate_code_exc_data] *)
Definition validate_code_exc_data (post_data : string)
  : list json * option string :=
  let failed (e : exn) := ([], Some ("Failed to parse request: " +:+ exn_str e)) in
  match json_loads post_data with
  | inl e => failed e
  | inr (JDict items) =>
      match dict_get items "code" (JList []) with
      | JList code => (code, None)
      | _ => failed (raise_ "ValueError" "'code' must be a list of strings")
      end
  | inr raw_data =>
      failed (raise_ "AttributeError"
                ("'" +:+ type_name raw_data
                 +:+ "' object has no attribute 'get'"))
  end.

End Validation.

(** ** The server: globals, threads and their steps *)

Inductive thread_id : Type :=
| ServerThread                      (* runs [serve_forever] and the handlers *)
| WorkerThread (rid : nat).         (* the thread started for request [rid] *)

Inductive console_item : Type :=
| Syntax (cblk : string)            (* [rich.print] of a [Syntax] object *)
| Markup (text : string)            (* [rich.print] of marked-up text *)
| Raw (text : string).              (* [sys.stdout.write] *)

(** What the process does that can be seen from outside, in order. *)
Inductive event : Type :=
| Response (rid : nat) (status : nat) (body : list (string * string))
| Console (who : thread_id) (item : console_item)
| RunCell (rid : nat) (unit : string)
| FlagWrite (who : thread_id) (v : bool)
| LogHeader (path : string)
| LogAppend (who : thread_id) (text : string)
| Uncaught (who : thread_id) (e : exn).

(** The handler of the request being served: the statement it is at. *)
Inductive server_pc : Type :=
| SIdle
| SExecAcquire (rid : nat) (code : list json)   (* line 171, [with execution_lock] *)
| SExecTest (rid : nat) (code : list json)      (* line 172, [if is_executing] *)
| SExecSet (rid : nat) (code : list json)       (* line 178 *)
| SExecLeave (rid : nat) (code : list json)     (* the [with] block ends *)
| SExecBusyLeave (rid : nat)                    (* [return] inside the block *)
| SExecAccept (rid : nat) (code : list json)    (* line 180 *)
| SExecSpawn (rid : nat) (code : list json)     (* lines 182-186 *)
| SResetAcquire (rid : nat)                     (* line 194 *)
| SResetClear (rid : nat)                       (* line 195 *)
| SResetLeave (rid : nat)
| SResetRespond (rid : nat)                     (* line 196 *)
| SResetLog (rid : nat).                        (* line 197 *)

(** A worker in [_run_code_in_background]: the statement it is at, with
    its locals.  [pending] is an exception that left the [except] block
    and is raised again once [finally] is through. *)
Inductive worker_pc : Type :=
| WEcho                                              (* line 87 *)
| WRun                                               (* lines 94-97 *)
| WClassify (out err : string) (r : exec_result)     (* lines 99-118 *)
| WEchoError (out error_output : string)             (* lines 119-122 *)
| WExcept (output : option string) (e : exn)         (* lines 125-128 *)
| WReport (output : option string) (error_output : string)  (* lines 129-130 *)
| WFinally (result : gmap string string) (pending : option exn)  (* line 133 *)
| WClear (result : gmap string string) (pending : option exn)    (* line 134 *)
| WUnlock (result : gmap string string) (pending : option exn)
| WLog (result : gmap string string) (pending : option exn)      (* line 135 *)
| WDone.

Record worker : Type := {
  code_lines : list string;
  code_str : string;
  w_pc : worker_pc;
}.

(** A request as the library has parsed it. *)
Inductive request : Type :=
| GET (path : string)
(** the body: the text read and decoded, or the exception of
    [int(self.headers["Content-Length"])], [read] or [decode] *)
| POST (path : string) (post_data : exn + string)
(** a request with another method, such as [PUT] or [HEAD]; [GET] and
    [POST] are written with their own constructors *)
| OTHER (command path : string).

(** One step of one thread.  [io] is what the step's console or file
    operation, when it has one, does: [None] when it goes through, the
    exception (an [Exception]) when it raises.  The socket, the serving
    thread's console and the report of a failed write to the log go
    through. *)
Inductive action : Type :=
| Arrive (r : request)               (* the serving thread takes a request *)
| Serve (io : option exn)            (* the handler's next statement *)
| Work (rid : nat) (io : option exn). (* worker [rid]'s next statement *)

(** lines 102-114: the error text of a cell that returned *)
Definition classify (out err : string) (r : exec_result) : string :=
  match error_before_exec r with
  | Some e => err +:+ "Error before execution: " +:+ exn_str e
  | None =>
      match error_in_exec r with
      | Some e =>
          if negb (truthy out) && negb (truthy err)
          then exn_traceback e
          else err
      | None => err
      end
  end.

Definition result_dict (output error : string) : gmap string string :=
  <["output" := output]> (<["error" := error]> ∅).

(** the text [write_to_log] appends *)
Definition log_entry (code_lines : list string) (result : gmap string string)
  : string :=
  let code_str := Text.join Text.nl code_lines in
  let output_str := strip_ansi_codes (or_empty (result !! "output")) in
  let error_str := strip_ansi_codes (or_empty (result !! "error")) in
  let log_content := if truthy output_str then output_str else "" in
  let log_content :=
    if truthy error_str
    then (if truthy log_content then log_content +:+ Text.nl else log_content)
         +:+ error_str
    else log_content in
  "```python" +:+ Text.nl +:+ code_str +:+ Text.nl +:+ "```" +:+ Text.nl
  +:+ Text.nl +:+ "<output>" +:+ Text.nl +:+ Text.strip log_content
  +:+ Text.nl +:+ "</output>" +:+ Text.nl +:+ Text.nl.

Definition reset_msg : string := "Cleared REPL scope (IPython reset)".

(** [os.path.join(a, b)] on POSIX *)
Definition path_join (a b : string) : string :=
  match b with
  | String "/" _ => b
  | _ =>
      match Text.rev_string a "" with
      | EmptyString => b
      | String "/" _ => a +:+ b
      | _ => a +:+ "/" +:+ b
      end
  end.

(** [\w] on one character: [str.isalnum] or the underscore *)
Definition is_word (c : ascii) : bool :=
  Text.in_range 48 57 c || Text.in_range 65 90 c || Text.in_range 97 122 c
  || (Text.code c =? 95)%nat
  || (Text.code c =? 170)%nat || (Text.code c =? 178)%nat
  || (Text.code c =? 179)%nat || (Text.code c =? 181)%nat
  || (Text.code c =? 185)%nat || (Text.code c =? 186)%nat
  || Text.in_range 188 190 c || Text.in_range 192 214 c
  || Text.in_range 216 246 c || Text.in_range 248 255 c.

(** a character [safe_log_name] keeps: [\w] or the hyphen *)
Definition name_char (c : ascii) : bool := is_word c || Ascii.eqb c "-"%char.

(** [re.sub(r"[^\w\-]+", "_", log_name)] *)
Definition safe_log_name (log_name : string) : string :=
  Regex.sub (Regex.Plus (fun c => negb (is_word c || Ascii.eqb c "-"%char)))
    "_" log_name.

(** the name [setup_logging] gives the log file; [stamp] is
    [datetime.datetime.now().strftime('%b%d%Y-%H%M%S')] *)
Definition log_file_name (stamp : string) (log_name : option string) : string :=
  let filename := stamp in
  let filename :=
    match log_name with
    | Some (String c n) => filename +:+ "-" +:+ safe_log_name (String c n)
    | _ => filename
    end in
  filename +:+ ".md".

(** the header [setup_logging] writes; [now] is [str(datetime.datetime.now())] *)
Definition log_header (now log_dir : string) (log_name : option string) : string :=
  "# PyREPL Session Log: " +:+ now +:+ Text.nl
  +:+ "# CWD: " +:+ log_dir +:+ Text.nl
  +:+ match log_name with
      | Some (String c n) => "# Session Name: " +:+ String c n +:+ Text.nl
      | _ => ""
      end
  +:+ Text.nl.

(** the command line and what the environment gives at start-up *)
Record args : Type := {
  log_dir : option string;
  log_name : option string;
}.

(** Where [setup_logging] fails: at [os.makedirs], at [open], or at a
    write (at the latest the one of closing the file), when [written]
    characters of the header have reached the file. *)
Inductive log_failure : Type :=
| AtMakedirs (e : exn)
| AtOpen (e : exn)
| AtWrite (written : nat) (e : exn).

Record startup : Type := {
  stamp : string;                (* the clock, as the file name has it *)
  now : string;                  (* the clock, as the header has it *)
  log_io : option log_failure;   (* [makedirs], [open] or a write raises *)
  port : string;                 (* [PYREPL_PORT], default 5000 *)
  bind : option exn;             (* [HTTPServer(addr, ...)] raises *)
}.

Section Server.
Context `{C : Collaborators}.

(** The module's globals, the files, the threads, and the events so
    far (the latest first). *)
Record state : Type := {
  ipshell : option Shell;
  log_file_path : option string;
  is_executing : bool;
  execution_lock : option thread_id;      (* who holds it *)
  files : gmap string string;
  server : server_pc;
  workers : gmap nat worker;
  next_rid : nat;
  trace : list event;
}.

Definition emit (e : event) (s : state) : state :=
  {| ipshell := ipshell s; log_file_path := log_file_path s;
     is_executing := is_executing s; execution_lock := execution_lock s;
     files := files s; server := server s; workers := workers s;
     next_rid := next_rid s; trace := e :: trace s |}.

Definition set_shell (sh : Shell) (s : state) : state :=
  {| ipshell := Some sh; log_file_path := log_file_path s;
     is_executing := is_executing s; execution_lock := execution_lock s;
     files := files s; server := server s; workers := workers s;
     next_rid := next_rid s; trace := trace s |}.

Definition set_log_file_path (p : option string) (s : state) : state :=
  {| ipshell := ipshell s; log_file_path := p;
     is_executing := is_executing s; execution_lock := execution_lock s;
     files := files s; server := server s; workers := workers s;
     next_rid := next_rid s; trace := trace s |}.

(** [is_executing = v], by thread [who] *)
Definition set_is_executing (who : thread_id) (v : bool) (s : state) : state :=
  {| ipshell := ipshell s; log_file_path := log_file_path s;
     is_executing := v; execution_lock := execution_lock s;
     files := files s; server := server s; workers := workers s;
     next_rid := next_rid s; trace := FlagWrite who v :: trace s |}.

Definition set_lock (l : option thread_id) (s : state) : state :=
  {| ipshell := ipshell s; log_file_path := log_file_path s;
     is_executing := is_executing s; execution_lock := l;
     files := files s; server := server s; workers := workers s;
     next_rid := next_rid s; trace := trace s |}.

Definition set_files (f : gmap string string) (s : state) : state :=
  {| ipshell := ipshell s; log_file_path := log_file_path s;
     is_executing := is_executing s; execution_lock := execution_lock s;
     files := f; server := server s; workers := workers s;
     next_rid := next_rid s; trace := trace s |}.

Definition set_server (pc : server_pc) (s : state) : state :=
  {| ipshell := ipshell s; log_file_path := log_file_path s;
     is_executing := is_executing s; execution_lock := execution_lock s;
     files := files s; server := pc; workers := workers s;
     next_rid := next_rid s; trace := trace s |}.

Definition set_worker (rid : nat) (w : worker) (s : state) : state :=
  {| ipshell := ipshell s; log_file_path := log_file_path s;
     is_executing := is_executing s; execution_lock := execution_lock s;
     files := files s; server := server s; workers := <[rid := w]> (workers s);
     next_rid := next_rid s; trace := trace s |}.

Definition take_rid (s : state) : state :=
  {| ipshell := ipshell s; log_file_path := log_file_path s;
     is_executing := is_executing s; execution_lock := execution_lock s;
     files := files s; server := server s; workers := workers s;
     next_rid := S (next_rid s); trace := trace s |}.

Definition goto (w : worker) (pc : worker_pc) : worker :=
  {| code_lines := code_lines w; code_str := code_str w; w_pc := pc |}.

(** [with open(path, "a") as f: f.write(text)] *)
Definition append_file (path text : string) (s : state) : state :=
  set_files (<[path := or_empty (files s !! path) +:+ text]> (files s)) s.

(** [send_json_response(status, resp_data)] for request [rid] *)
Definition send_json_response (rid status : nat)
    (resp_data : list (string * string)) (s : state) : state :=
  emit (Response rid status resp_data) s.

(** [self.send_response(404); self.end_headers()] *)
Definition send_not_found (rid : nat) (s : state) : state :=
  emit (Response rid 404 []) s.

(** [write_to_log], called by thread [who] *)
Definition write_to_log (io : option exn) (who : thread_id)
    (code_lines : list string) (result : gmap string string) (s : state)
  : state :=
  match log_file_path s with
  | None | Some EmptyString => s
  | Some path =>
      match io with
      | None =>
          let text := log_entry code_lines result in
          emit (LogAppend who text) (append_file path text s)
      | Some e =>
          emit (Console who
                  (Markup ("[red]Error writing to log file " +:+ path
                           +:+ ": " +:+ exn_str e))) s
      end
  end.

(** [setup_logging]: the state after it and the value it returns *)
Definition setup_logging (env : startup) (log_dir log_name : option string)
    (s : state) : state * option string :=
  match log_dir with
  | None | Some EmptyString => (s, None)
  | Some dir =>
      let target_dir := path_join dir ".pyrepl" in
      let path := path_join target_dir (log_file_name (stamp env) log_name) in
      let enabled s :=
        emit (Console ServerThread
                (Markup ("[blue]Logging enabled. Log file: " +:+ path)))
          (set_log_file_path (Some path) s) in
      let failed e s :=
        emit (Console ServerThread
                (Markup ("[red]Failed to setup logging in " +:+ dir
                         +:+ ": " +:+ exn_str e))) s in
      match log_io env with
      | Some (AtMakedirs e) => (failed e s, None)
      | Some (AtOpen e) => (failed e (enabled s), None)
      | Some (AtWrite written e) =>
          let head := Text.take written (log_header (now env) dir log_name) in
          (failed e (append_file path head (enabled s)), None)
      | None =>
          let s := emit (LogHeader path)
                     (append_file path (log_header (now env) dir log_name)
                        (enabled s)) in
          (s, Some path)
      end
  end.

(** the module as loaded: lines 19-24 *)
Definition loaded (fs : gmap string string) : state :=
  {| ipshell := None; log_file_path := None; is_executing := false;
     execution_lock := None; files := fs; server := SIdle;
     workers := ∅; next_rid := 0; trace := [] |}.

(** [run_server], up to [serve_forever]: the state in which the first
    request is served, or [None] when the server does not start *)
Definition run_server (a : args) (env : startup) (fs : gmap string string)
  : option state :=
  let (s, path) := setup_logging env (log_dir a) (log_name a) (loaded fs) in
  let s := set_log_file_path path s in
  let s := emit (Console ServerThread
                   (Markup "[blue]Initializing IPython & loading default extensions...")) s in
  match run_cell new_shell "%load_ext autoreload" true with
  | Raised _ _ | Escaped _ _ => None
  | Returned sh _ _ _ =>
      match run_cell sh "%autoreload 2" true with
      | Raised _ _ | Escaped _ _ => None
      | Returned sh _ _ _ =>
          let s := set_shell sh s in
          let s := emit (Console ServerThread
                           (Markup ("[bold blue]Server running on http://localhost:"
                                    +:+ port env))) s in
          match bind env with
          | Some _ => None
          | None => Some s
          end
      end
  end.

(** [execute_code], lines 160-169 *)
Definition execute_code_enter (rid : nat) (post_data : exn + string)
    (s : state) : state :=
  match ipshell s with
  | None =>
      send_json_response rid 500 [("error", "IPython shell not initialized")] s
  | Some _ =>
      match post_data with
      | inl e => emit (Uncaught ServerThread e) s
      | inr text =>
          match validate_code_exc_data text with
          | (_, Some error) => send_json_response rid 400 [("error", error)] s
          | (code, None) => set_server (SExecAcquire rid code) s
          end
      end
  end.

(** [reset_scope], lines 190-193 and 199 *)
Definition reset_scope_enter (rid : nat) (s : state) : state :=
  match ipshell s with
  | Some sh =>
      let s := set_shell (reset sh) s in
      let s := emit (Console ServerThread
                       (Markup ("[bold yellow]" +:+ reset_msg +:+ Text.nl))) s in
      set_server (SResetAcquire rid) s
  | None =>
      send_json_response rid 500 [("error", "IPython shell not initialized")] s
  end.

(** the methods the class has a [do_] method for *)
Definition supported (command : string) : bool :=
  String.eqb command "GET" || String.eqb command "POST".

(** [do_GET] and [do_POST], up to the first statement that waits; for
    another method the library's [handle_one_request] answers
    [send_error(501)], with a page of its own *)
Definition arrive (r : request) (s : state) : option state :=
  match server s with
  | SIdle =>
      let rid := next_rid s in
      let s := take_rid s in
      match r with
      | GET path =>
          Some (if String.eqb path "/health"
                then send_json_response rid 200 [("status", "alive")] s
                else send_not_found rid s)
      | POST path post_data =>
          Some (if String.eqb path "/execute"
                then execute_code_enter rid post_data s
                else if String.eqb path "/reset"
                then reset_scope_enter rid s
                else send_not_found rid s)
      | OTHER command path =>
          if supported command then None
          else Some (emit (Response rid 501 []) s)
      end
  | _ => None
  end.

(** [with execution_lock:] entered by [who]: waits while another
    thread holds the lock *)
Definition acquire (who : thread_id) (s : state) : option state :=
  match execution_lock s with
  | None => Some (set_lock (Some who) s)
  | Some _ => None
  end.

Definition release (s : state) : state := set_lock None s.

(** lines 182-186: the unit is made and the worker started, or
    ["\n".join(code)] raises and the handler ends there *)
Definition spawn (rid : nat) (code : list json) (s : state) : state :=
  match str_items 0 code with
  | inr lines =>
      set_worker rid
        {| code_lines := lines;
           code_str := Textwrap.dedent (Text.join Text.nl lines);
           w_pc := WEcho |} s
  | inl e => emit (Uncaught ServerThread e) s
  end.

(** the handler's next statement *)
Definition serve (io : option exn) (s : state) : option state :=
  match server s with
  | SIdle => None
  | SExecAcquire rid code =>
      set_server (SExecTest rid code) <$> acquire ServerThread s
  | SExecTest rid code =>
      if is_executing s
      then Some (set_server (SExecBusyLeave rid)
                   (send_json_response rid 409
                      [("error", "Server is busy executing previous code")] s))
      else Some (set_server (SExecSet rid code) s)
  | SExecSet rid code =>
      Some (set_server (SExecLeave rid code) (set_is_executing ServerThread true s))
  | SExecLeave rid code =>
      Some (set_server (SExecAccept rid code) (release s))
  | SExecBusyLeave rid =>
      Some (set_server SIdle (release s))
  | SExecAccept rid code =>
      Some (set_server (SExecSpawn rid code)
              (send_json_response rid 200
                 [("status", "Execution request accepted")] s))
  | SExecSpawn rid code =>
      Some (spawn rid code (set_server SIdle s))
  | SResetAcquire rid =>
      set_server (SResetClear rid) <$> acquire ServerThread s
  | SResetClear rid =>
      Some (set_server (SResetLeave rid) (set_is_executing ServerThread false s))
  | SResetLeave rid =>
      Some (set_server (SResetRespond rid) (release s))
  | SResetRespond rid =>
      Some (set_server (SResetLog rid)
              (send_json_response rid 200 [("status", "ok")] s))
  | SResetLog rid =>
      Some (set_server SIdle
              (write_to_log io ServerThread ["# Reset Command Received"]
                 {["output" := reset_msg]} s))
  end.

(** lines 116-118 and 126-128, and lines 119-120: the echo of the
    captured streams *)
Definition echo_stdout (who : thread_id) (output : string) (s : state) : state :=
  if truthy output then emit (Console who (Raw output)) s else s.

Definition echo_stderr (who : thread_id) (error_output : string) (s : state)
  : state :=
  if truthy error_output
  then emit (Console who (Markup ("[red]" +:+ error_output))) s
  else s.

(** worker [rid]'s next statement *)
Definition work (rid : nat) (io : option exn) (s : state) : option state :=
  let me := WorkerThread rid in
  match workers s !! rid with
  | None => None
  | Some w =>
      let at_ pc s := set_worker rid (goto w pc) s in
      match w_pc w with
      | WEcho =>
          match io with
          | None => Some (at_ WRun
                            (emit (Console me (Syntax (format_code (code_lines w)))) s))
          | Some e => Some (at_ WDone (emit (Uncaught me e) s))
          end
      | WRun =>
          match ipshell s with
          | None => None
          | Some sh =>
              let s := emit (RunCell rid (code_str w)) s in
              match run_cell sh (code_str w) false with
              | Returned sh' out err r =>
                  Some (at_ (WClassify out err r) (set_shell sh' s))
              | Raised sh' e =>
                  Some (at_ (WExcept None e) (set_shell sh' s))
              | Escaped sh' e =>
                  Some (at_ (WFinally ∅ (Some e)) (set_shell sh' s))
              end
          end
      | WClassify out err r =>
          let error_output := classify out err r in
          match io, truthy out with
          | Some e, true => Some (at_ (WExcept (Some out) e) s)
          | _, _ =>
              Some (at_ (WEchoError out error_output) (echo_stdout me out s))
          end
      | WEchoError out error_output =>
          match io, truthy error_output with
          | Some e, true => Some (at_ (WExcept (Some out) e) s)
          | _, _ =>
              Some (at_ (WFinally (result_dict out error_output) None)
                      (echo_stderr me error_output s))
          end
      | WExcept output e =>
          let error_output := exn_traceback e in
          match io, truthy (or_empty output) with
          | Some e', true => Some (at_ (WFinally ∅ (Some e')) s)
          | _, _ =>
              Some (at_ (WReport output error_output)
                      (echo_stdout me (or_empty output) s))
          end
      | WReport output error_output =>
          match io with
          | None =>
              Some (at_ (WFinally (result_dict (or_empty output) error_output) None)
                      (emit (Console me
                               (Markup ("[red]Error during background execution:"
                                        +:+ error_output))) s))
          | Some e' => Some (at_ (WFinally ∅ (Some e')) s)
          end
      | WFinally result pending =>
          at_ (WClear result pending) <$> acquire me s
      | WClear result pending =>
          Some (at_ (WUnlock result pending) (set_is_executing me false s))
      | WUnlock result pending =>
          Some (at_ (WLog result pending) (release s))
      | WLog result pending =>
          let s := write_to_log io me (code_lines w) result s in
          let s := match pending with
                   | Some e => emit (Uncaught me e) s
                   | None => s
                   end in
          Some (at_ WDone s)
      | WDone => None
      end
  end.

Definition step (a : action) (s : state) : option state :=
  match a with
  | Arrive r => arrive r s
  | Serve io => serve io s
  | Work rid io => work rid io s
  end.

(** a schedule, run from [s]: [None] when a step of it cannot be taken *)
Fixpoint run (sched : list action) (s : state) : option state :=
  match sched with
  | [] => Some s
  | a :: rest =>
      match step a s with
      | Some s' => run rest s'
      | None => None
      end
  end.

(** ** Predicates on states and traces *)

(** the worker has not yet cleared the busy flag *)
Definition in_flight (w : worker) : bool :=
  match w_pc w with
  | WEcho | WRun | WClassify _ _ _ | WEchoError _ _ | WExcept _ _
  | WReport _ _ | WFinally _ _ | WClear _ _ => true
  | WUnlock _ _ | WLog _ _ | WDone => false
  end.

(** the handler is inside [with execution_lock] *)
Definition server_in_lock (pc : server_pc) : bool :=
  match pc with
  | SExecTest _ _ | SExecSet _ _ | SExecLeave _ _ | SExecBusyLeave _
  | SResetClear _ | SResetLeave _ => true
  | _ => false
  end.

Definition worker_in_lock (w : worker) : bool :=
  match w_pc w with
  | WClear _ _ | WUnlock _ _ => true
  | _ => false
  end.

Definition accepted (rid : nat) : event :=
  Response rid 200 [("status", "Execution request accepted")].

(** the events of the code submitted by request [rid]: its echo, its
    run, the echo of its output, its record in the transcript *)
Definition side_effect_of (rid : nat) (e : event) : Prop :=
  match e with
  | Console (WorkerThread r) _ | RunCell r _
  | LogAppend (WorkerThread r) _ | FlagWrite (WorkerThread r) _
  | Uncaught (WorkerThread r) _ => r = rid
  | _ => False
  end.

(** in the trace [t] (latest first), every occurrence of [e2] has an
    occurrence of [e1] strictly before it *)
Definition precedes (e1 e2 : event) (t : list event) : Prop :=
  ∀ later earlier, t = (later ++ e2 :: earlier)%list → e1 ∈ earlier.

(** the session, the log path, the busy flag, the lock, the files and
    the workers are what they were *)
Definition unchanged (s s' : state) : Prop :=
  ipshell s' = ipshell s ∧ log_file_path s' = log_file_path s
  ∧ is_executing s' = is_executing s
  ∧ execution_lock s' = execution_lock s
  ∧ files s' = files s ∧ workers s' = workers s.

(** the request got this response, the handler is through, and
    nothing else happened *)
Definition replies (rid status : nat) (body : list (string * string))
    (s s' : state) : Prop :=
  trace s' = Response rid status body :: trace s
  ∧ server s' = SIdle ∧ next_rid s' = S (next_rid s) ∧ unchanged s s'.

Definition is_list (v : json) : bool :=
  match v with JList _ => true | _ => false end.

(** the body is not JSON, or not an object, or its [code] is there and
    is not a list *)
Definition malformed (text : string) : bool :=
  match json_loads text with
  | inl _ => true
  | inr (JDict items) => negb (is_list (dict_get items "code" (JList [])))
  | inr _ => true
  end.

Definition is_reset (a : action) : bool :=
  match a with
  | Arrive (POST path _) =>
      negb (String.eqb path "/execute") && String.eqb path "/reset"
  | _ => false
  end.

(** the request is admitted and its worker not yet started *)
Definition admitted (pc : server_pc) : bool :=
  match pc with
  | SExecLeave _ _ | SExecAccept _ _ | SExecSpawn _ _ => true
  | _ => false
  end.

Definition is_header (e : event) : bool :=
  match e with LogHeader _ => true | _ => false end.

Definition is_append (e : event) : bool :=
  match e with LogAppend _ _ => true | _ => false end.

Definition in_reset (pc : server_pc) : bool :=
  match pc with
  | SResetAcquire _ | SResetClear _ | SResetLeave _ | SResetRespond _
  | SResetLog _ => true
  | _ => false
  end.

(** the request whose worker the handler is on the way to start *)
Definition exec_rid (pc : server_pc) : option nat :=
  match pc with
  | SExecAcquire rid _ | SExecTest rid _ | SExecSet rid _ | SExecLeave rid _
  | SExecAccept rid _ | SExecSpawn rid _ => Some rid
  | _ => None
  end.

(** The lock is held by the thread that is inside its [with] block,
    and between the handler's test of the flag and its write the flag
    is as tested. *)
Definition gate_inv (s : state) : Prop :=
  (server_in_lock (server s) = true → execution_lock s = Some ServerThread)
  ∧ (∀ rid w, workers s !! rid = Some w → worker_in_lock w = true →
       execution_lock s = Some (WorkerThread rid))
  ∧ (∀ rid code, server s = SExecSet rid code → is_executing s = false)
  ∧ (∀ rid code, server s = SExecLeave rid code → is_executing s = true).

(** While no reset is served: a worker in flight has the flag set, no
    two are in flight, and none is while a request is being admitted. *)
Definition single_flight (s : state) : Prop :=
  (∀ rid w, workers s !! rid = Some w → in_flight w = true →
     is_executing s = true)
  ∧ (∀ r1 r2 w1 w2, workers s !! r1 = Some w1 → workers s !! r2 = Some w2 →
       in_flight w1 = true → in_flight w2 = true → r1 = r2)
  ∧ (admitted (server s) = true →
       is_executing s = true
       ∧ ∀ rid w, workers s !! rid = Some w → in_flight w = false)
  ∧ (∀ rid code, server s = SExecSet rid code → is_executing s = false)
  ∧ in_reset (server s) = false.

(** every side effect in the trace has its request's acceptance
    earlier in the trace *)
Fixpoint ordered (t : list event) : Prop :=
  match t with
  | [] => True
  | e :: earlier =>
      (∀ rid, side_effect_of rid e → accepted rid ∈ earlier) ∧ ordered earlier
  end.

Definition response_first (s : state) : Prop :=
  ordered (trace s)
  ∧ (∀ rid w, workers s !! rid = Some w → accepted rid ∈ trace s)
  ∧ (∀ rid code, server s = SExecSpawn rid code → accepted rid ∈ trace s).

(** request numbers are fresh, a worker's unit is its lines joined and
    de-indented, and every cell run is the unit of its worker *)
Definition units_inv (s : state) : Prop :=
  (∀ rid w, workers s !! rid = Some w →
     (rid < next_rid s)%nat
     ∧ code_str w = Textwrap.dedent (Text.join Text.nl (code_lines w)))
  ∧ (∀ rid, exec_rid (server s) = Some rid →
       (rid < next_rid s)%nat ∧ workers s !! rid = None)
  ∧ (∀ rid unit, RunCell rid unit ∈ trace s →
       ∃ w, workers s !! rid = Some w ∧ unit = code_str w).

Definition count_headers (t : list event) : nat :=
  length (List.filter is_header t).

(** the log records in the trace *)
Definition appends (t : list event) : list event := List.filter is_append t.

(** the shell and the next statement of the worker after [run_cell] *)
Definition after_cell (o : cell_outcome Shell) : Shell * worker_pc :=
  match o with
  | Returned sh out err r => (sh, WClassify out err r)
  | Raised sh e => (sh, WExcept None e)
  | Escaped sh e => (sh, WFinally ∅ (Some e))
  end.

(** the statements of the [try] block and its [except] still ahead *)
Definition try_rank (pc : worker_pc) : nat :=
  match pc with
  | WRun => 5
  | WClassify _ _ _ => 4
  | WEchoError _ _ => 3
  | WExcept _ _ => 2
  | WReport _ _ => 1
  | _ => 0
  end.






(** the flag is set and there is no worker left to clear it *)
Definition stuck (s : state) : Prop :=
  is_executing s = true ∧ workers s = ∅
  ∧ match server s with
    | SIdle | SExecAcquire _ _ | SExecTest _ _ | SExecBusyLeave _ => True
    | _ => False
    end.

(** the log file is [path], it starts with [head], and the header was
    written once *)
Definition header_once (path head : string) (s : state) : Prop :=
  log_file_path s = Some path
  ∧ count_headers (trace s) = 1%nat
  ∧ ∃ records, files s !! path = Some (head +:+ records).

(** *** Further predicates on states and traces *)

Definition is_response_of (rid : nat) (e : event) : bool :=
  match e with Response r _ _ => Nat.eqb r rid | _ => false end.

Definition is_run_of (rid : nat) (e : event) : bool :=
  match e with RunCell r _ => Nat.eqb r rid | _ => false end.

Definition is_log_of (rid : nat) (e : event) : bool :=
  match e with LogAppend (WorkerThread r) _ => Nat.eqb r rid | _ => false end.

(** how many responses request [rid] got, how often its unit was run,
    and how many records its worker appended *)
Definition count_responses (rid : nat) (t : list event) : nat :=
  length (List.filter (is_response_of rid) t).

Definition count_runs (rid : nat) (t : list event) : nat :=
  length (List.filter (is_run_of rid) t).

Definition count_logs (rid : nat) (t : list event) : nat :=
  length (List.filter (is_log_of rid) t).

(** the request the handler has still to answer *)
Definition awaiting (pc : server_pc) : option nat :=
  match pc with
  | SExecAcquire rid _ | SExecTest rid _ | SExecSet rid _ | SExecLeave rid _
  | SExecAccept rid _ | SResetAcquire rid | SResetClear rid | SResetLeave rid
  | SResetRespond rid => Some rid
  | _ => None
  end.

Definition one_response (s : state) : Prop :=
  (∀ rid, (count_responses rid (trace s) ≤ 1)%nat)
  ∧ (∀ rid, (next_rid s ≤ rid)%nat → count_responses rid (trace s) = 0%nat)
  ∧ (∀ rid, awaiting (server s) = Some rid →
       (rid < next_rid s)%nat ∧ count_responses rid (trace s) = 0%nat).

(** the body of the request can be read and decoded as text *)
Definition readable (a : action) : bool :=
  match a with
  | Arrive (POST _ (inl _)) => false
  | _ => true
  end.

(** and every request whose handler is through has its response *)
Definition exactly_one (s : state) : Prop :=
  one_response s
  ∧ ∀ rid, (rid < next_rid s)%nat → awaiting (server s) ≠ Some rid →
      count_responses rid (trace s) = 1%nat.





(** request numbers in use are below the next one, and the request
    being admitted has no worker yet *)
Definition fresh_inv (s : state) : Prop :=
  (∀ rid w, workers s !! rid = Some w → (rid < next_rid s)%nat)
  ∧ (∀ rid, exec_rid (server s) = Some rid →
       (rid < next_rid s)%nat ∧ workers s !! rid = None).

(** whoever holds the lock is inside its [with] block *)
Definition lock_held_inv (s : state) : Prop :=
  match execution_lock s with
  | None => True
  | Some ServerThread => server_in_lock (server s) = true
  | Some (WorkerThread rid) =>
      ∃ w, workers s !! rid = Some w ∧ worker_in_lock w = true
  end.

(** the next step of a thread *)
Definition step_of (who : thread_id) (io : option exn) : action :=
  match who with
  | ServerThread => Serve io
  | WorkerThread rid => Work rid io
  end.

(** the statements the holder of the lock has ahead, the release
    included (the longest way for the handler's test) *)
Definition server_rank (pc : server_pc) : nat :=
  match pc with
  | SExecTest _ _ => 3
  | SExecSet _ _ | SResetClear _ => 2
  | SExecLeave _ _ | SExecBusyLeave _ | SResetLeave _ => 1
  | _ => 0
  end.

Definition worker_rank (pc : worker_pc) : nat :=
  match pc with
  | WClear _ _ => 2
  | WUnlock _ _ => 1
  | _ => 0
  end.

Definition lock_rank (s : state) : nat :=
  match execution_lock s with
  | None => 0
  | Some ServerThread => server_rank (server s)
  | Some (WorkerThread rid) =>
      match workers s !! rid with
      | Some w => worker_rank (w_pc w)
      | None => 0
      end
  end.

(** the worker has cleared the flag and not yet left [write_to_log] *)
Definition past_clear (w : worker) : bool :=
  match w_pc w with
  | WUnlock _ _ | WLog _ _ => true
  | _ => false
  end.

(** every record a worker appended has that worker's clearing of the
    flag earlier in the trace *)
Fixpoint cleared_before_log (t : list event) : Prop :=
  match t with
  | [] => True
  | e :: earlier =>
      (∀ rid text, e = LogAppend (WorkerThread rid) text →
         FlagWrite (WorkerThread rid) false ∈ earlier)
      ∧ cleared_before_log earlier
  end.

Definition release_first (s : state) : Prop :=
  cleared_before_log (trace s)
  ∧ (∀ rid w, workers s !! rid = Some w → past_clear w = true →
       FlagWrite (WorkerThread rid) false ∈ trace s).

(** the worker has not yet run its cell *)
Definition before_run (w : worker) : bool :=
  match w_pc w with
  | WEcho | WRun => true
  | _ => false
  end.

Definition is_done (w : worker) : bool :=
  match w_pc w with
  | WDone => true
  | _ => false
  end.

(** the unit of a request is run at most once and logged at most once *)
Definition once_inv (s : state) : Prop :=
  fresh_inv s
  ∧ ∀ rid,
      (count_runs rid (trace s) ≤ 1)%nat ∧ (count_logs rid (trace s) ≤ 1)%nat
      ∧ match workers s !! rid with
        | None =>
            count_runs rid (trace s) = 0%nat ∧ count_logs rid (trace s) = 0%nat
        | Some w =>
            (before_run w = true → count_runs rid (trace s) = 0%nat)
            ∧ (is_done w = false → count_logs rid (trace s) = 0%nat)
        end.

End Server.

(** ** A small instance of the collaborators

    A decoder that knows a few bodies, each with the value [json.loads]
    gives for it, and an engine that knows a few cells; the shell is the
    list of the cells run since the last reset. *)

Module Demo.

Definition q (s : string) : string :=
  String (ascii_of_nat 34) s +:+ String (ascii_of_nat 34) "".

(** [{"code": ["x = 1", "print(x)"]}] *)
Definition body_print : string :=
  "{" +:+ q "code" +:+ ": [" +:+ q "x = 1" +:+ ", " +:+ q "print(x)" +:+ "]}".
(** [{"code": ["    y = 2"]}] *)
Definition body_indented : string :=
  "{" +:+ q "code" +:+ ": [" +:+ q "    y = 2" +:+ "]}".
(** [{"code": ["raise ValueError('boom')"]}] *)
Definition body_raise : string :=
  "{" +:+ q "code" +:+ ": [" +:+ q "raise ValueError('boom')" +:+ "]}".
(** [{"code": [1]}] *)
Definition body_int_item : string := "{" +:+ q "code" +:+ ": [1]}".
(** [{"code": "not-a-list"}] *)
Definition body_not_list : string :=
  "{" +:+ q "code" +:+ ": " +:+ q "not-a-list" +:+ "}".
(** [{}] *)
Definition body_no_code : string := "{}".
(** [{"code": ["sys.stderr.write('[/x]'); raise ValueError('boom')"]}] *)
Definition body_markup : string :=
  "{" +:+ q "code" +:+ ": ["
  +:+ q "sys.stderr.write('[/x]'); raise ValueError('boom')" +:+ "]}".
(** [[]] *)
Definition body_array : string := "[]".
Definition body_not_json : string := "not json".

Definition loads (text : string) : exn + json :=
  if String.eqb text body_print then
    inr (JDict [("code", JList [JStr "x = 1"; JStr "print(x)"])])
  else if String.eqb text body_indented then
    inr (JDict [("code", JList [JStr "    y = 2"])])
  else if String.eqb text body_raise then
    inr (JDict [("code", JList [JStr "raise ValueError('boom')"])])
  else if String.eqb text body_markup then
    inr (JDict [("code",
                 JList [JStr "sys.stderr.write('[/x]'); raise ValueError('boom')"])])
  else if String.eqb text body_int_item then
    inr (JDict [("code", JList [JInt 1])])
  else if String.eqb text body_not_list then
    inr (JDict [("code", JStr "not-a-list")])
  else if String.eqb text body_no_code then inr (JDict [])
  else if String.eqb text body_array then inr (JList [])
  else inl (raise_ "JSONDecodeError" "Expecting value: line 1 column 1 (char 0)").

Definition boom : exn :=
  {| exn_type := "ValueError"; exn_str := "boom";
     exn_traceback :=
       "Traceback (most recent call last):" +:+ Text.nl
       +:+ "ValueError: boom" +:+ Text.nl |}.

Definition no_error : exec_result :=
  {| error_before_exec := None; error_in_exec := None |}.

Definition cell (sh : list string) (raw : string) (silent : bool)
  : cell_outcome (list string) :=
  if String.eqb raw ("x = 1" +:+ Text.nl +:+ "print(x)") then
    Returned (raw :: sh) ("1" +:+ Text.nl) "" no_error
  else if String.eqb raw "raise ValueError('boom')" then
    Returned (raw :: sh) "" ""
      {| error_before_exec := None; error_in_exec := Some boom |}
  else if String.eqb raw "sys.stderr.write('[/x]'); raise ValueError('boom')" then
    Returned (raw :: sh) "" "[/x]"
      {| error_before_exec := None; error_in_exec := Some boom |}
  else Returned (raw :: sh) "" "" no_error.

(** the names a cell binds *)
Definition names (raw : string) : list string :=
  if String.eqb raw ("x = 1" +:+ Text.nl +:+ "print(x)") then ["x"]
  else if String.eqb raw "y = 2" then ["y"]
  else [].

Definition bound (sh : list string) : list string := flat_map names sh.

#[export] Instance collaborators : Collaborators := {|
  Shell := list string;
  new_shell := [];
  run_cell := cell;
  reset := fun _ => [];
  bindings := bound;
  reset_bindings := fun _ => eq_refl;
  json_loads := loads;
|}.


Definition no_log : args := {| log_dir := None; log_name := None |}.
Definition with_log : args :=
  {| log_dir := Some "/tmp/proj"; log_name := Some "my session" |}.

Definition env : startup :=
  {| stamp := "Nov032026-101500"; now := "2026-11-03 10:15:00.000001";
     log_io := None; port := "5000"; bind := None |}.

(** the module loaded and [run_server] not yet called *)
Definition unstarted : state := loaded ∅.

(** the serving state of a process started without [--log-dir] *)
Definition idle : state := default (loaded ∅) (run_server no_log env ∅).

Definition execute (body : string) : action := Arrive (POST "/execute" (inr body)).
Definition do_reset : action := Arrive (POST "/reset" (inr "")).
Definition go : action := Serve None.

(** the same with a request admitted and its cell not yet run *)
Definition busy : state :=
  default idle
    (run [execute body_print; go; go; go; go; go; go; Work 0 None] idle).

(** the handler of a request holds the lock, the flag just set *)
Definition locked : state :=
  default idle (run [execute body_print; go; go; go] idle).


(** the cell of [body_print] has returned *)
Definition printed : state :=
  default idle
    (run [execute body_print; go; go; go; go; go; go; Work 0 None; Work 0 None]
       idle).



(** the serving state of a process started with [--log-dir /tmp/proj
    --log-name "my session"] *)
Definition logging : state := default (loaded ∅) (run_server with_log env ∅).

Definition log_path : string := "/tmp/proj/.pyrepl/Nov032026-101500-my_session.md".



End Demo.

(** * Properties *)

(** ** The matcher and [sub] *)

Section RegexFacts.
Import Regex.

Lemma star_rest {A} (p : ascii -> bool) (s : string) (k : string -> option A) x :
  star p s k = Some x ->
  exists rest, k rest = Some x /\ (String.length rest <= String.length s)%nat.
Proof.
  induction s as [|c t IH]; simpl.
  - intros Hk. exists EmptyString. split; [exact Hk | simpl; lia].
  - destruct (p c).
    + destruct (star p t k) as [y|] eqn:Hst.
      * intros Heq. injection Heq as ->.
        destruct (IH eq_refl) as (rest & Hk & Hlen).
        exists rest. split; [exact Hk | lia].
      * intros Hk. exists (String c t). split; [exact Hk | simpl; lia].
    + intros Hk. exists (String c t). split; [exact Hk | simpl; lia].
Qed.

(** a match hands the continuation a suffix no longer than the text *)
Lemma re_match_rest {A} (r : re) :
  forall (s : string) (k : string -> option A) x,
    re_match r s k = Some x ->
    exists rest, k rest = Some x /\ (String.length rest <= String.length s)%nat.
Proof.
  induction r as [p | a IHa b IHb | a IHa b IHb | p | p]; intros s k x; simpl.
  - destruct s as [|c t]; [discriminate|].
    destruct (p c); [|discriminate].
    intros Hk. exists t. split; [exact Hk | simpl; lia].
  - intros Hm. destruct (IHa _ _ _ Hm) as (mid & Hb & Hlen).
    destruct (IHb _ _ _ Hb) as (rest & Hk & Hlen').
    exists rest. split; [exact Hk | lia].
  - destruct (re_match a s k) as [y|] eqn:Ha.
    + intros Heq. injection Heq as ->. eauto.
    + eauto.
  - apply star_rest.
  - destruct s as [|c t]; [discriminate|].
    destruct (p c); [|discriminate].
    intros Hm. destruct (star_rest _ _ _ _ Hm) as (rest & Hk & Hlen).
    exists rest. split; [exact Hk | simpl; lia].
Qed.

(** what [sub] with an empty replacement gives is no longer than what
    is left of the text after the characters to pass over *)
Lemma sub_from_length (r : re) :
  forall (s : string) (skip : nat),
    (String.length (sub_from r "" skip s) <= String.length s - skip)%nat.
Proof.
  induction s as [|c t IH]; intros skip; simpl; [lia|].
  destruct skip as [|n].
  - destruct (match_len r (String c t)) as [[|n]|]; simpl.
    + specialize (IH 0%nat). lia.
    + specialize (IH n). change ("" +:+ ?x) with x. lia.
    + specialize (IH 0%nat). lia.
  - apply IH.
Qed.

End RegexFacts.

(** ** The sanitizer *)

Section Sanitizer.
Import Regex.

(** an escape sequence has the ESC and at least one more character *)
Lemma ansi_match_nonempty (s : string) (m : nat) :
  match_len ansi_regex s = Some m -> exists n, m = S n.
Proof.
  unfold match_len, ansi_regex.
  destruct s as [|c t]; [discriminate|].
  match goal with |- context [Alt ?a ?b] => set (body := Alt a b) end.
  change (re_match (Seq (Chr (is_char ESC)) body) (String c t) ?k)
    with (if is_char ESC c then re_match body t k else None).
  destruct (is_char ESC c); [|discriminate].
  intros Hm. apply re_match_rest in Hm as (rest & Hk & Hlen).
  injection Hk as <-. exists (String.length t - String.length rest)%nat.
  simpl. lia.
Qed.

Lemma escape_at_first (c : ascii) (t : string) :
  is_char ESC c = false -> escape_at (String c t) = false.
Proof.
  intros Hc. unfold escape_at, match_len, ansi_regex.
  cbn [re_match]. now rewrite Hc.
Qed.

Lemma sub_no_match (s : string) :
  contains_escape s = false -> sub ansi_regex "" s = s.
Proof.
  unfold sub. induction s as [|c t IH]; [reflexivity|].
  cbn [contains_escape sub_from]. intros H.
  apply orb_false_iff in H as [Hat Hin].
  unfold escape_at in Hat.
  destruct (match_len ansi_regex (String c t)); [discriminate|].
  now rewrite IH.
Qed.

Lemma strip_no_escape (s : string) :
  contains_escape s = false -> strip_ansi_codes s = s.
Proof.
  destruct s as [|c t]; [reflexivity|]. apply sub_no_match.
Qed.

(** a pass over a text with an escape sequence makes it shorter *)
Lemma sub_shortens (s : string) :
  contains_escape s = true ->
  (String.length (sub ansi_regex "" s) < String.length s)%nat.
Proof.
  unfold sub. induction s as [|c t IH]; [discriminate|].
  cbn [contains_escape sub_from]. intros H. unfold escape_at in H.
  destruct (match_len ansi_regex (String c t)) as [m|] eqn:Hm.
  - destruct (ansi_match_nonempty _ _ Hm) as [n ->].
    change ("" +:+ ?x) with x.
    pose proof (sub_from_length ansi_regex t n). simpl. lia.
  - simpl in H. specialize (IH H). simpl. lia.
Qed.

Lemma strip_fixed_no_escape (s : string) :
  strip_ansi_codes s = s -> contains_escape s = false.
Proof.
  intros Hfix. destruct (contains_escape s) eqn:Hc; [|reflexivity].
  destruct s as [|c t]; [discriminate|].
  pose proof (sub_shortens _ Hc) as Hlt.
  unfold strip_ansi_codes in Hfix. rewrite Hfix in Hlt. lia.
Qed.

Lemma no_esc_no_escape (s : string) :
  Text.mem ESC s = false -> contains_escape s = false.
Proof.
  induction s as [|c t IH]; [reflexivity|].
  cbn [Text.mem contains_escape]. intros H.
  apply orb_false_iff in H as [Hc Ht].
  rewrite (escape_at_first c t Hc). now apply IH.
Qed.

(** when every ESC starts an escape sequence, none is left *)
Lemma sub_complete_no_esc :
  forall (s : string) (skip : nat),
    escapes_complete s = true ->
    Text.mem ESC (sub_from ansi_regex "" skip s) = false.
Proof.
  induction s as [|c t IH]; intros skip; [reflexivity|].
  cbn [escapes_complete sub_from]. intros H.
  apply andb_true_iff in H as [Hc Ht].
  destruct skip as [|n]; [|now apply IH].
  unfold escape_at in Hc.
  destruct (match_len ansi_regex (String c t)) as [m|] eqn:Hm.
  - destruct (ansi_match_nonempty _ _ Hm) as [n ->].
    change ("" +:+ ?x) with x. now apply IH.
  - cbn [Text.mem]. rewrite orb_false_r in Hc.
    apply negb_true_iff in Hc. unfold is_char in Hc. rewrite Hc.
    now apply IH.
Qed.

Lemma strip_complete_no_escape (s : string) :
  escapes_complete s = true -> contains_escape (strip_ansi_codes s) = false.
Proof.
  intros H. apply no_esc_no_escape.
  destruct s as [|c t]; [reflexivity|].
  now apply sub_complete_no_esc.
Qed.

End Sanitizer.

(** C6, as the specification has it, fails: a lone ESC is kept by the
    first pass and, once the sequence after it is gone, starts a new
    escape sequence with the text that follows.  On ESC ESC [ m A the
    first pass leaves ESC A and the second leaves nothing. *)
Lemma strip_ansi_codes_twice_differs :
  let s := String ESC (String ESC "[mA") in
  strip_ansi_codes s = String ESC "A"
  /\ strip_ansi_codes (strip_ansi_codes s) = ""
  /\ strip_ansi_codes (strip_ansi_codes s) <> strip_ansi_codes s.
Proof. repeat split. discriminate. Qed.

(** C6 (amended): [strip_ansi_codes] is the identity on every text that
    contains no escape sequence; applying it twice equals applying it
    once exactly when the first pass leaves no escape sequence, which is
    so whenever every ESC character of the text starts an escape
    sequence. *)
Theorem strip_ansi_codes_idempotence (s : string) :
  (contains_escape s = false -> strip_ansi_codes s = s)
  /\ (strip_ansi_codes (strip_ansi_codes s) = strip_ansi_codes s
      <-> contains_escape (strip_ansi_codes s) = false)
  /\ (escapes_complete s = true ->
      strip_ansi_codes (strip_ansi_codes s) = strip_ansi_codes s).
Proof.
  split; [apply strip_no_escape|]. split.
  - split; [apply strip_fixed_no_escape | apply strip_no_escape].
  - intros H. apply strip_no_escape. now apply strip_complete_no_escape.
Qed.

Lemma strip_ansi_codes_idempotence_witness :
  strip_ansi_codes "no escapes here" = "no escapes here"
  /\ strip_ansi_codes
       (strip_ansi_codes (String ESC "[1;31mred" +:+ String ESC "[0m!"))
     = strip_ansi_codes (String ESC "[1;31mred" +:+ String ESC "[0m!").
Proof.
  split.
  - apply (strip_ansi_codes_idempotence "no escapes here"). reflexivity.
  - apply (strip_ansi_codes_idempotence
             (String ESC "[1;31mred" +:+ String ESC "[0m!")).
    reflexivity.
Defined.

(** ** The handlers, statement by statement *)

Section Handlers.
Context `{C : Collaborators}.

Lemma unchanged_refl (s : state) : unchanged s s.
Proof. repeat split. Qed.

(** a response and a request number taken change nothing else *)
Lemma send_replies (rid status : nat) (body : list (string * string)) (s : state) :
  server s = SIdle -> rid = next_rid s ->
  replies rid status body s (send_json_response rid status body (take_rid s)).
Proof. intros Hs ->. repeat split; simpl; auto. Qed.

Lemma validate_malformed (text : string) :
  malformed text = true ->
  exists detail,
    validate_code_exc_data text
    = ([], Some ("Failed to parse request: " +:+ detail)).
Proof.
  unfold malformed, validate_code_exc_data.
  destruct (json_loads text) as [e | v]; [eauto|].
  destruct v; eauto.
  destruct (dict_get items "code" (JList [])); simpl; eauto; discriminate.
Qed.

Lemma validate_well_formed (text : string) :
  malformed text = false ->
  exists items code,
    json_loads text = inr (JDict items)
    /\ dict_get items "code" (JList []) = JList code
    /\ validate_code_exc_data text = (code, None).
Proof.
  unfold malformed, validate_code_exc_data.
  destruct (json_loads text) as [e | v]; [discriminate|].
  destruct v; try discriminate.
  destruct (dict_get items "code" (JList [])) eqn:Hget; try discriminate.
  intros _. exists items, l. rewrite Hget. auto.
Qed.

(** *** One statement at a time *)

Lemma run_cons (a : action) (rest : list action) (s s1 : state) :
  step a s = Some s1 -> run (a :: rest) s = run rest s1.
Proof. intros H. cbn [run]. now rewrite H. Qed.

Lemma arrive_execute (s : state) (sh : Shell) (text : string)
    (code : list json) :
  server s = SIdle -> ipshell s = Some sh ->
  validate_code_exc_data text = (code, None) ->
  step (Arrive (POST "/execute" (inr text))) s
  = Some (set_server (SExecAcquire (next_rid s) code) (take_rid s)).
Proof.
  intros Hpc Hsh Hval. cbn [step]. unfold arrive. rewrite Hpc.
  change ("/execute" =? "/execute")%string with true. cbv iota.
  unfold execute_code_enter.
  change (ipshell (take_rid s)) with (ipshell s). now rewrite Hsh, Hval.
Qed.


Lemma serve_exec_acquire (s : state) (io : option exn) (rid : nat)
    (code : list json) :
  server s = SExecAcquire rid code -> execution_lock s = None ->
  step (Serve io) s
  = Some (set_server (SExecTest rid code) (set_lock (Some ServerThread) s)).
Proof. intros Hpc Hl. cbn [step]. unfold serve, acquire. now rewrite Hpc, Hl. Qed.

Lemma serve_exec_test_busy (s : state) (io : option exn) (rid : nat)
    (code : list json) :
  server s = SExecTest rid code -> is_executing s = true ->
  step (Serve io) s
  = Some (set_server (SExecBusyLeave rid)
            (send_json_response rid 409
               [("error", "Server is busy executing previous code")] s)).
Proof. intros Hpc Hf. cbn [step]. unfold serve. now rewrite Hpc, Hf. Qed.

Lemma serve_exec_test_idle (s : state) (io : option exn) (rid : nat)
    (code : list json) :
  server s = SExecTest rid code -> is_executing s = false ->
  step (Serve io) s = Some (set_server (SExecSet rid code) s).
Proof. intros Hpc Hf. cbn [step]. unfold serve. now rewrite Hpc, Hf. Qed.

Lemma serve_exec_set (s : state) (io : option exn) (rid : nat)
    (code : list json) :
  server s = SExecSet rid code ->
  step (Serve io) s
  = Some (set_server (SExecLeave rid code)
            (set_is_executing ServerThread true s)).
Proof. intros Hpc. cbn [step]. unfold serve. now rewrite Hpc. Qed.

Lemma serve_exec_leave (s : state) (io : option exn) (rid : nat)
    (code : list json) :
  server s = SExecLeave rid code ->
  step (Serve io) s = Some (set_server (SExecAccept rid code) (release s)).
Proof. intros Hpc. cbn [step]. unfold serve. now rewrite Hpc. Qed.

Lemma serve_exec_busy_leave (s : state) (io : option exn) (rid : nat) :
  server s = SExecBusyLeave rid ->
  step (Serve io) s = Some (set_server SIdle (release s)).
Proof. intros Hpc. cbn [step]. unfold serve. now rewrite Hpc. Qed.

Lemma serve_exec_accept (s : state) (io : option exn) (rid : nat)
    (code : list json) :
  server s = SExecAccept rid code ->
  step (Serve io) s
  = Some (set_server (SExecSpawn rid code)
            (send_json_response rid 200
               [("status", "Execution request accepted")] s)).
Proof. intros Hpc. cbn [step]. unfold serve. now rewrite Hpc. Qed.

Lemma serve_exec_spawn (s : state) (io : option exn) (rid : nat)
    (code : list json) :
  server s = SExecSpawn rid code ->
  step (Serve io) s = Some (spawn rid code (set_server SIdle s)).
Proof. intros Hpc. cbn [step]. unfold serve. now rewrite Hpc. Qed.






Lemma work_echo (s : state) (rid : nat) (w : worker) :
  workers s !! rid = Some w -> w_pc w = WEcho ->
  step (Work rid None) s
  = Some (set_worker rid (goto w WRun)
            (emit (Console (WorkerThread rid)
                     (Syntax (format_code (code_lines w)))) s)).
Proof. intros Hw Hpc. cbn [step]. unfold work. now rewrite Hw, Hpc. Qed.

Lemma work_run (s : state) (rid : nat) (w : worker) (sh : Shell)
    (io : option exn) :
  workers s !! rid = Some w -> w_pc w = WRun -> ipshell s = Some sh ->
  let after := after_cell (run_cell sh (code_str w) false) in
  step (Work rid io) s
  = Some (set_worker rid (goto w after.2)
            (set_shell after.1 (emit (RunCell rid (code_str w)) s))).
Proof.
  intros Hw Hpc Hsh. cbn [step]. unfold work. rewrite Hw, Hpc, Hsh.
  now destruct (run_cell sh (code_str w) false).
Qed.

Lemma work_classify (s : state) (rid : nat) (w : worker) (out err : string)
    (r : exec_result) (io : option exn) :
  workers s !! rid = Some w -> w_pc w = WClassify out err r ->
  truthy out = false \/ io = None ->
  step (Work rid io) s
  = Some (set_worker rid (goto w (WEchoError out (classify out err r)))
            (echo_stdout (WorkerThread rid) out s)).
Proof.
  intros Hw Hpc Hio. cbn [step]. unfold work. rewrite Hw, Hpc.
  destruct Hio as [-> | ->]; [now destruct io | reflexivity].
Qed.

Lemma work_classify_raises (s : state) (rid : nat) (w : worker)
    (out err : string) (r : exec_result) (e : exn) :
  workers s !! rid = Some w -> w_pc w = WClassify out err r ->
  truthy out = true ->
  step (Work rid (Some e)) s = Some (set_worker rid (goto w (WExcept (Some out) e)) s).
Proof.
  intros Hw Hpc Hout. cbn [step]. unfold work. now rewrite Hw, Hpc, Hout.
Qed.

Lemma work_echo_error (s : state) (rid : nat) (w : worker)
    (out error_output : string) (io : option exn) :
  workers s !! rid = Some w -> w_pc w = WEchoError out error_output ->
  truthy error_output = false \/ io = None ->
  step (Work rid io) s
  = Some (set_worker rid (goto w (WFinally (result_dict out error_output) None))
            (echo_stderr (WorkerThread rid) error_output s)).
Proof.
  intros Hw Hpc Hio. cbn [step]. unfold work. rewrite Hw, Hpc.
  destruct Hio as [-> | ->]; [now destruct io | reflexivity].
Qed.

Lemma work_echo_error_raises (s : state) (rid : nat) (w : worker)
    (out error_output : string) (e : exn) :
  workers s !! rid = Some w -> w_pc w = WEchoError out error_output ->
  truthy error_output = true ->
  step (Work rid (Some e)) s = Some (set_worker rid (goto w (WExcept (Some out) e)) s).
Proof.
  intros Hw Hpc Hout. cbn [step]. unfold work. now rewrite Hw, Hpc, Hout.
Qed.

Lemma work_except (s : state) (rid : nat) (w : worker)
    (output : option string) (e : exn) (io : option exn) :
  workers s !! rid = Some w -> w_pc w = WExcept output e ->
  truthy (or_empty output) = false \/ io = None ->
  step (Work rid io) s
  = Some (set_worker rid (goto w (WReport output (exn_traceback e)))
            (echo_stdout (WorkerThread rid) (or_empty output) s)).
Proof.
  intros Hw Hpc Hio. cbn [step]. unfold work. rewrite Hw, Hpc.
  destruct Hio as [-> | ->]; [now destruct io | reflexivity].
Qed.

Lemma work_report (s : state) (rid : nat) (w : worker)
    (output : option string) (error_output : string) :
  workers s !! rid = Some w -> w_pc w = WReport output error_output ->
  step (Work rid None) s
  = Some (set_worker rid
            (goto w (WFinally (result_dict (or_empty output) error_output) None))
            (emit (Console (WorkerThread rid)
                     (Markup ("[red]Error during background execution:"
                              +:+ error_output))) s)).
Proof. intros Hw Hpc. cbn [step]. unfold work. now rewrite Hw, Hpc. Qed.

Lemma truthy_true (x : string) : x <> "" -> truthy x = true.
Proof. unfold truthy. now destruct (String.eqb_spec x ""). Qed.

(** the worker's own entry after one of its steps *)
Lemma worker_after (s : state) (rid : nat) (w : worker) :
  workers (set_worker rid w s) !! rid = Some w.
Proof. cbn. apply lookup_insert_eq. Qed.

End Handlers.

(** C10: with no shell, [POST /execute] is answered 500 before the body
    is looked at, whatever the body is (unreadable, not JSON, or a valid
    request), and the busy flag, the lock, the files and the workers
    stay as they were. *)
Theorem execute_uninitialized `{C : Collaborators}
    (s : state) (post_data : exn + string) :
  server s = SIdle -> ipshell s = None ->
  exists s',
    arrive (POST "/execute" post_data) s = Some s'
    /\ replies (next_rid s) 500 [("error", "IPython shell not initialized")] s s'.
Proof.
  intros Hpc Hsh. unfold arrive. rewrite Hpc. simpl.
  unfold execute_code_enter. simpl. rewrite Hsh.
  eexists. split; [reflexivity|]. now apply send_replies.
Qed.

Lemma execute_uninitialized_witness :
  exists s',
    arrive (POST "/execute" (inr Demo.body_not_json)) Demo.unstarted = Some s'
    /\ replies 0 500 [("error", "IPython shell not initialized")]
         Demo.unstarted s'.
Proof.
  apply (execute_uninitialized Demo.unstarted (inr Demo.body_not_json));
    reflexivity.
Defined.

(** only the list is checked, not its items *)
Example non_string_items_pass_validation :
  validate_code_exc_data (C := Demo.collaborators) Demo.body_int_item
  = ([JInt 1], None).
Proof. reflexivity. Qed.

(** C3, as the specification has it, fails: a body that is a JSON object
    without a [code] field passes validation as the empty list of lines
    and the request is admitted. *)
Lemma missing_code_is_accepted :
  validate_code_exc_data (C := Demo.collaborators) Demo.body_no_code = ([], None)
  /\ exists s',
      run [Arrive (POST "/execute" (inr Demo.body_no_code));
           Serve None; Serve None; Serve None; Serve None; Serve None]
        Demo.idle = Some s'
      /\ trace s' = Response 0 200 [("status", "Execution request accepted")]
                    :: FlagWrite ServerThread true :: trace Demo.idle
      /\ is_executing Demo.idle = false /\ is_executing s' = true.
Proof.
  split; [reflexivity|]. eexists. repeat split.
Qed.

(** C3 (amended): on an initialized server a body that does not decode
    as JSON, or decodes to something that is not an object, or to an
    object whose [code] is not a list, is answered 400 with an error
    text that starts [Failed to parse request: ], and nothing else
    changes: no log record, no write of the busy flag.  A text body that
    decodes to an object whose [code] is a list of strings, or is
    missing, goes on to the admission gate with that list ([[]] when it
    is missing). *)
Theorem execute_validates `{C : Collaborators}
    (s : state) (sh : Shell) (text : string) :
  server s = SIdle -> ipshell s = Some sh ->
  exists s', arrive (POST "/execute" (inr text)) s = Some s'
  /\ (malformed text = true ->
      exists detail,
        let error := "Failed to parse request: " +:+ detail in
        error <> "" /\ replies (next_rid s) 400 [("error", error)] s s')
  /\ (forall items lines,
        json_loads text = inr (JDict items) ->
        dict_get items "code" (JList []) = JList (JStr <$> lines) ->
        malformed text = false
        /\ s' = set_server (SExecAcquire (next_rid s) (JStr <$> lines))
                  (take_rid s)).
Proof.
  intros Hpc Hsh. unfold arrive. rewrite Hpc. simpl.
  unfold execute_code_enter. simpl. rewrite Hsh.
  eexists. split; [reflexivity|]. split.
  - intros Hm. destruct (validate_malformed text Hm) as (detail & ->).
    exists detail. split; [discriminate|]. now apply send_replies.
  - intros items lines Hl Hg.
    unfold malformed, validate_code_exc_data. now rewrite Hl, Hg.
Qed.

Lemma execute_validates_witness :
  exists s' detail,
    arrive (POST "/execute" (inr Demo.body_not_list)) Demo.idle = Some s'
    /\ replies 0 400 [("error", "Failed to parse request: " +:+ detail)]
         Demo.idle s'.
Proof.
  destruct (execute_validates Demo.idle _ Demo.body_not_list eq_refl eq_refl)
    as (s' & Hs & Hbad & _).
  destruct (Hbad eq_refl) as (detail & _ & Hr).
  exists s', detail. split; assumption.
Defined.




(** ** Invariants of the runs *)

Section Runs.
Context `{C : Collaborators}.

Lemma run_invariant (P : state -> Prop) :
  (forall a s s', P s -> step a s = Some s' -> P s') ->
  forall sched s s', P s -> run sched s = Some s' -> P s'.
Proof.
  intros Hstep. induction sched as [|a rest IH]; intros s s' HP; simpl.
  - intros [= <-]. exact HP.
  - destruct (step a s) as [s1|] eqn:Ha; [|discriminate].
    apply IH. eapply Hstep; eauto.
Qed.

Lemma run_invariant_where (ok : action -> bool) (P : state -> Prop) :
  (forall a s s', ok a = true -> P s -> step a s = Some s' -> P s') ->
  forall sched s s',
    forallb ok sched = true -> P s -> run sched s = Some s' -> P s'.
Proof.
  intros Hstep. induction sched as [|a rest IH]; intros s s' Hok HP; simpl.
  - intros [= <-]. exact HP.
  - simpl in Hok. apply andb_true_iff in Hok as [Ha Hrest].
    destruct (step a s) as [s1|] eqn:Hs; [|discriminate].
    apply IH; [exact Hrest|]. eapply Hstep; eauto.
Qed.


(** what [run_server] leaves when the server starts *)
Lemma run_server_shape (a : args) (env : startup) (fs : gmap string string)
    (s0 : state) :
  run_server a env fs = Some s0 ->
  server s0 = SIdle /\ workers s0 = ∅ /\ is_executing s0 = false
  /\ execution_lock s0 = None /\ next_rid s0 = 0%nat
  /\ (exists sh, ipshell s0 = Some sh)
  /\ Forall (fun e => match e with
                      | Console ServerThread _ | LogHeader _ => True
                      | _ => False
                      end) (trace s0).
Proof.
  unfold run_server.
  destruct (setup_logging env (log_dir a) (log_name a) (loaded fs))
    as [s1 path] eqn:Hsetup.
  assert (Hs1 : server s1 = SIdle /\ workers s1 = ∅ /\ is_executing s1 = false
                /\ execution_lock s1 = None /\ next_rid s1 = 0%nat
                /\ Forall (fun e => match e with
                                    | Console ServerThread _ | LogHeader _ => True
                                    | _ => False
                                    end) (trace s1)).
  { unfold setup_logging in Hsetup.
    destruct (log_dir a) as [[|c d]|]; [| destruct (log_io env) as [[| |]|] |];
      injection Hsetup as <- <-; cbn; repeat split; repeat constructor. }
  destruct Hs1 as (Hpc & Hwrk & Hflag & Hlock & Hrid & Htrace).
  destruct (run_cell new_shell _ true) as [sh1 ? ? ?| |]; try discriminate.
  destruct (run_cell sh1 _ true) as [sh2 ? ? ?| |]; try discriminate.
  destruct (bind env); [discriminate|].
  intros [= <-]. cbn. repeat split; eauto.
Qed.

End Runs.

(** the cases of one step: which thread, at which statement, and what
    the environment did *)
Ltac step_cases H :=
  match type of H with
  | step ?a ?s = Some ?s' =>
      destruct a as [[path | path post_data | command path] | io | rid io];
      cbn [step] in H;
      [ unfold arrive in H; destruct (server s) eqn:Hpc; try discriminate H;
        destruct (String.eqb path "/health") eqn:Hpath
      | unfold arrive in H; destruct (server s) eqn:Hpc; try discriminate H;
        destruct (String.eqb path "/execute") eqn:Hexecute;
        [ unfold execute_code_enter in H; cbn in H;
          destruct (ipshell s) as [sh|] eqn:Hsh;
          [ destruct post_data as [e | text];
            [ | destruct (validate_code_exc_data text) as [code [error|]] eqn:Hval ]
          | ]
        | destruct (String.eqb path "/reset") eqn:Hreset;
          [ unfold reset_scope_enter in H; cbn in H;
            destruct (ipshell s) as [sh|] eqn:Hsh
          | ] ]
      | unfold arrive in H; destruct (server s) eqn:Hpc; try discriminate H;
        destruct (supported command) eqn:Hcommand; try discriminate H
      | unfold serve, acquire in H; destruct (server s) eqn:Hpc;
        try discriminate H;
        try match type of H with
            | context [execution_lock s] =>
                destruct (execution_lock s) eqn:Hlock; try discriminate H
            | context [is_executing s] => destruct (is_executing s) eqn:Hflag
            end
      | unfold work, acquire in H;
        destruct (workers s !! rid) as [w|] eqn:Hw; try discriminate H;
        destruct (w_pc w) eqn:Hwpc; try discriminate H;
        [ destruct io
        | destruct (ipshell s) as [sh|] eqn:Hsh; try discriminate H;
          destruct (run_cell sh (code_str w) false) eqn:Hcell
        | destruct io;
          [match type of H with
           | context [truthy ?x] => destruct (truthy x) eqn:Hecho
           end |]
        | destruct io;
          [match type of H with
           | context [truthy ?x] => destruct (truthy x) eqn:Hecho
           end |]
        | destruct io;
          [match type of H with
           | context [truthy ?x] => destruct (truthy x) eqn:Hecho
           end |]
        | destruct io
        | destruct (execution_lock s) eqn:Hlock; try discriminate H
        | | | ] ];
      cbn in H; injection H as <-;
      try unfold spawn; try unfold write_to_log;
      try unfold echo_stderr; try unfold echo_stdout;
      repeat match goal with
             | |- context [match log_file_path ?s0 with _ => _ end] =>
                 destruct (log_file_path s0) as [[|? ?]|] eqn:Hlog
             | |- context [match ?x with Some _ => _ | None => _ end] =>
                 is_var x; destruct x
             | |- context [if truthy ?x then _ else _] =>
                 destruct (truthy x) eqn:?
             | |- context [match str_items ?i ?c with _ => _ end] =>
                 destruct (str_items i c) eqn:Hitems
             end
  end.

Ltac inv_insert :=
  repeat match goal with
         | H : <[_ := _]> _ !! _ = Some _ |- _ =>
             apply lookup_insert_Some in H as [[<- <-] | [? H]]
         end.

(** ** The admission gate *)

Section Gate.
Context `{C : Collaborators}.

Lemma gate_step (a : action) (s s' : state) :
  gate_inv s -> step a s = Some s' -> gate_inv s'.
Proof.
  intros (Hsrv & Hwrk & Hset & Hleave) H.
  step_cases H; unfold gate_inv; cbn;
    try match goal with
        | Hw : workers s !! _ = Some ?w, Hwpc : w_pc ?w = _ |- _ =>
            let Hin := fresh "Hin" in
            assert (Hin : worker_in_lock w = true)
              by (unfold worker_in_lock; rewrite Hwpc; reflexivity);
            pose proof (Hwrk _ _ Hw Hin)
        end;
    rewrite ?Hpc in *; cbn in *;
    try specialize (Hsrv eq_refl);
    repeat split; intros; inv_insert;
    repeat match goal with
           | H1 : server_in_lock (server s) = true |- _ => apply Hsrv in H1
           | H1 : workers s !! _ = Some ?w0, H2 : worker_in_lock ?w0 = true |- _ =>
               pose proof (Hwrk _ _ H1 H2); clear H2
           | H1 : server s = SExecLeave _ _ |- _ =>
               pose proof (Hleave _ _ H1);
               assert (execution_lock s = Some ServerThread)
                 by (apply Hsrv; rewrite H1; reflexivity); clear H1
           | H1 : server s = SExecSet _ _ |- _ =>
               pose proof (Hset _ _ H1);
               assert (execution_lock s = Some ServerThread)
                 by (apply Hsrv; rewrite H1; reflexivity); clear H1
           end;
    try discriminate; try congruence; eauto.
Qed.

Lemma gate_start (a : args) (env : startup) (fs : gmap string string)
    (s0 : state) :
  run_server a env fs = Some s0 -> gate_inv s0.
Proof.
  intros H. apply run_server_shape in H as (Hpc & Hw & _).
  unfold gate_inv. rewrite Hpc, Hw. repeat split; intros; discriminate.
Qed.

Lemma gate_reachable (a : args) (env : startup) (fs : gmap string string)
    (s0 : state) (sched : list action) (s : state) :
  run_server a env fs = Some s0 -> run sched s0 = Some s -> gate_inv s.
Proof.
  intros H0. apply run_invariant; [apply gate_step | eapply gate_start; eauto].
Qed.

(** while the handler is between its test and its write, no worker's
    step changes the flag *)
Lemma worker_keeps_flag (s s' : state) (wid : nat) (io' : option exn)
    (rid' : nat) (code' : list json) :
  gate_inv s -> server s = SExecSet rid' code' ->
  step (Work wid io') s = Some s' ->
  is_executing s' = is_executing s /\ server s' = SExecSet rid' code'.
Proof.
  intros (Hsrv & Hwrk & _) Hpc' H.
  assert (Hheld : execution_lock s = Some ServerThread)
    by (apply Hsrv; rewrite Hpc'; reflexivity).
  remember (Work wid io') as a eqn:Ha.
  step_cases H; try discriminate Ha; cbn; auto; try congruence.
  assert (Hin : worker_in_lock w = true)
    by (unfold worker_in_lock; rewrite Hwpc; reflexivity).
  pose proof (Hwrk _ _ Hw Hin). congruence.
Qed.

Lemma single_flight_step (a : action) (s s' : state) :
  is_reset a = false ->
  single_flight s -> step a s = Some s' -> single_flight s'.
Proof.
  intros Ha (K1 & K2 & K3 & K4 & K5) H.
  step_cases H; unfold single_flight; cbn;
    try (cbn in Ha; rewrite ?Hexecute, ?Hreset in Ha; discriminate Ha);
    try match goal with
        | Hw : workers s !! _ = Some ?w, Hwpc : w_pc ?w = _ |- _ =>
            let Hin := fresh "Hin" in
            first
              [ assert (Hin : in_flight w = true)
                  by (unfold in_flight; rewrite Hwpc; reflexivity);
                pose proof (K1 _ _ Hw Hin)
              | assert (Hin : in_flight w = false)
                  by (unfold in_flight; rewrite Hwpc; reflexivity) ]
        end;
    rewrite ?Hpc in *; cbn in *; try discriminate K5;
    try specialize (K3 eq_refl);
    try specialize (K4 _ _ eq_refl);
    repeat split; intros; inv_insert;
    repeat match goal with
           | H1 : admitted (server s) = true |- _ =>
               apply K3 in H1; destruct H1
           | H1 : server s = SExecSet _ _ |- _ => apply K4 in H1
           | H1 : _ /\ _ |- _ => destruct H1
           | |- in_flight ?w0 = false =>
               destruct (in_flight w0) eqn:?; [exfalso | reflexivity]
           end;
    try discriminate; try congruence; eauto;
    try match goal with
        | Hnone : forall rid w, workers s !! rid = Some w -> in_flight w = false,
          Hw : workers s !! _ = Some ?w0, Hf : in_flight ?w0 = true |- _ =>
            rewrite (Hnone _ _ Hw) in Hf; discriminate Hf
        | Hw : workers s !! _ = Some ?w0, Hf : in_flight ?w0 = true,
          Hflag : is_executing s = false |- _ =>
            rewrite (K1 _ _ Hw Hf) in Hflag; discriminate Hflag
        | Hw1 : workers s !! ?r1 = Some ?w1, Hf1 : in_flight ?w1 = true,
          Hw2 : workers s !! ?r2 = Some ?w2, Hf2 : in_flight ?w2 = true,
          Hne : ?r1 <> ?r2 |- _ =>
            exfalso; apply Hne; exact (K2 _ _ _ _ Hw1 Hw2 Hf1 Hf2)
        | Hw1 : workers s !! ?r1 = Some ?w1, Hf1 : in_flight ?w1 = true,
          Hw2 : workers s !! ?r2 = Some ?w2, Hf2 : in_flight ?w2 = true,
          Hne : ?r2 <> ?r1 |- _ =>
            exfalso; apply Hne; exact (K2 _ _ _ _ Hw2 Hw1 Hf2 Hf1)
        end.
Qed.

Lemma single_flight_start (a : args) (env : startup)
    (fs : gmap string string) (s0 : state) :
  run_server a env fs = Some s0 -> single_flight s0.
Proof.
  intros H. apply run_server_shape in H as (Hpc & Hw & Hflag & _).
  unfold single_flight. rewrite Hpc, Hw.
  repeat split; intros; discriminate.
Qed.

(** a valid request that finds the flag set: 409 and nothing else *)
Lemma busy_rejected (s : state) (sh : Shell) (text : string)
    (code : list json) (io1 io2 io3 : option exn) :
  server s = SIdle -> ipshell s = Some sh -> execution_lock s = None ->
  is_executing s = true -> validate_code_exc_data text = (code, None) ->
  exists s',
    run [Arrive (POST "/execute" (inr text)); Serve io1; Serve io2; Serve io3] s
    = Some s'
    /\ replies (next_rid s) 409
         [("error", "Server is busy executing previous code")] s s'.
Proof.
  intros Hpc Hsh Hlock Hflag Hval.
  erewrite run_cons by (eapply arrive_execute; eassumption).
  erewrite run_cons by (eapply serve_exec_acquire; [reflexivity | exact Hlock]).
  erewrite run_cons by (eapply serve_exec_test_busy; [reflexivity | exact Hflag]).
  erewrite run_cons by (eapply serve_exec_busy_leave; reflexivity).
  eexists. split; [reflexivity|].
  repeat split; cbn; auto.
Qed.

End Gate.

(** C1, as the specification has it, fails: with an execution in flight
    and the flag set, a [POST /execute] whose body is not JSON is
    answered 400, not 409 (the body is validated before the gate is
    looked at). *)
Lemma busy_malformed_gets_400 :
  is_executing Demo.busy = true
  /\ (exists w, workers Demo.busy !! 0%nat = Some w /\ in_flight w = true)
  /\ exists s',
      step (Demo.execute Demo.body_not_json) Demo.busy = Some s'
      /\ replies 1 400
           [("error",
             "Failed to parse request: Expecting value: line 1 column 1 (char 0)")]
           Demo.busy s'.
Proof.
  split; [vm_compute; reflexivity|]. split.
  - eexists. split; vm_compute; reflexivity.
  - eexists. split; [vm_compute; reflexivity|].
    repeat split; vm_compute; reflexivity.
Qed.

(** a reset served while a cell runs clears the flag under it: the next
    request is admitted and two workers are in flight *)
Example reset_admits_second_execution :
  exists s w0 w2,
    run [Demo.execute Demo.body_print;
         Demo.go; Demo.go; Demo.go; Demo.go; Demo.go; Demo.go;
         Work 0 None;
         Demo.do_reset; Demo.go; Demo.go; Demo.go; Demo.go; Demo.go;
         Demo.execute Demo.body_indented;
         Demo.go; Demo.go; Demo.go; Demo.go; Demo.go; Demo.go]
      Demo.idle = Some s
    /\ workers s !! 0%nat = Some w0 /\ in_flight w0 = true
    /\ workers s !! 2%nat = Some w2 /\ in_flight w2 = true.
Proof.
  eexists. eexists. eexists. split; [vm_compute; reflexivity|].
  split; [vm_compute; reflexivity|]. split; [vm_compute; reflexivity|].
  split; vm_compute; reflexivity.
Qed.

(** C1 (amended): while the busy flag is set, a [POST /execute] whose
    body passes validation is answered 409 with the error [Server is
    busy executing previous code], and the session, the flag, the files
    and the workers stay as they were, with no log record.  The flag is
    tested and set under the lock: between the handler's test and its
    write the flag is still clear and no worker's step changes it.  In a
    run that serves no [/reset], a worker in flight has the flag set and
    no two workers are in flight. *)
Theorem admission_gate `{C : Collaborators} (s : state) :
  (forall sh text code io1 io2 io3,
      server s = SIdle -> ipshell s = Some sh -> execution_lock s = None ->
      is_executing s = true -> validate_code_exc_data text = (code, None) ->
      exists s',
        run [Arrive (POST "/execute" (inr text)); Serve io1; Serve io2; Serve io3] s
        = Some s'
        /\ replies (next_rid s) 409
             [("error", "Server is busy executing previous code")] s s')
  /\ (forall a env fs s0 sched,
        run_server a env fs = Some s0 -> run sched s0 = Some s ->
        (forall rid code,
            server s = SExecSet rid code ->
            is_executing s = false /\ execution_lock s = Some ServerThread
            /\ forall wid io s',
                step (Work wid io) s = Some s' ->
                is_executing s' = false /\ server s' = SExecSet rid code)
        /\ (forallb (fun a => negb (is_reset a)) sched = true ->
            single_flight s)).
Proof.
  split; [intros; eapply busy_rejected; eauto|].
  intros a env fs s0 sched Hstart Hrun. split.
  - intros rid code Hpc.
    pose proof (gate_reachable _ _ _ _ _ _ Hstart Hrun) as Hgate.
    destruct Hgate as (Hsrv & Hwrk & Hset & Hleave).
    assert (Hflag : is_executing s = false) by eauto.
    split; [exact Hflag|]. split; [apply Hsrv; rewrite Hpc; reflexivity|].
    intros wid io s' Hstep.
    destruct (worker_keeps_flag s s' wid io rid code) as [Hsame Hpc']; auto.
    + repeat split; assumption.
    + split; congruence.
  - intros Hsched.
    eapply (run_invariant_where (fun a => negb (is_reset a))); eauto.
    + intros a' s1 s2 Hok. apply single_flight_step.
      now apply negb_true_iff in Hok.
    + eapply single_flight_start; eauto.
Qed.

Lemma admission_gate_witness :
  (exists s',
      run [Demo.execute Demo.body_print; Demo.go; Demo.go; Demo.go] Demo.busy
      = Some s'
      /\ replies 1 409 [("error", "Server is busy executing previous code")]
           Demo.busy s')
  /\ single_flight Demo.busy.
Proof.
  destruct (admission_gate Demo.busy) as [Hbusy Hreach]. split.
  - eapply Hbusy; vm_compute; reflexivity.
  - destruct (Hreach Demo.no_log Demo.env ∅ Demo.idle
                [Demo.execute Demo.body_print; Demo.go; Demo.go; Demo.go;
                 Demo.go; Demo.go; Demo.go; Work 0 None])
      as [_ Hsingle]; [vm_compute; reflexivity | vm_compute; reflexivity |].
    apply Hsingle. reflexivity.
Defined.

(** ** The response comes first *)

Section Order.
Context `{C : Collaborators}.

Lemma ordered_precedes (t : list event) (rid : nat) (e : event) :
  ordered t -> side_effect_of rid e -> precedes (accepted rid) e t.
Proof.
  intros Hord Hside later. revert t Hord.
  induction later as [|x later IH]; intros t Hord earlier ->; simpl in Hord.
  - destruct Hord as [Hhead _]. now apply Hhead.
  - destruct Hord as [_ Hrest]. eapply IH; eauto.
Qed.

Lemma response_first_step (a : action) (s s' : state) :
  response_first s -> step a s = Some s' -> response_first s'.
Proof.
  intros (Hord & Hwrk & Hspawn) H.
  step_cases H; unfold response_first; cbn;
    rewrite ?Hpc in *;
    repeat split; try (intros ? []; fail); intros; inv_insert;
    cbn in *; subst;
    try discriminate;
    repeat match goal with
           | H1 : ?pc = SExecSpawn _ _ |- _ => injection H1 as <- <-
           end;
    eauto using list_elem_of_here, list_elem_of_further.
Qed.

Lemma response_first_start (a : args) (env : startup)
    (fs : gmap string string) (s0 : state) :
  run_server a env fs = Some s0 -> response_first s0.
Proof.
  intros H.
  apply run_server_shape in H as (Hpc & Hw & _ & _ & _ & _ & Htrace).
  unfold response_first. rewrite Hpc, Hw.
  repeat split; try (intros; discriminate).
  induction Htrace as [|e t He _ IH]; simpl; [exact I|].
  split; [|exact IH].
  intros rid Hside. destruct e as [| [] | | | | |]; contradiction.
Qed.

End Order.

(** C4: in every run of a started server, each side effect of the code
    of a request (the echo of the code, the run of its unit, the echo of
    its output, the write of the flag by its worker, its record in the
    transcript) comes strictly after the response 200 [Execution request
    accepted] of that request. *)
Theorem response_precedes_effects `{C : Collaborators}
    (a : args) (env : startup) (fs : gmap string string) (s0 : state)
    (sched : list action) (s : state) (rid : nat) (e : event) :
  run_server a env fs = Some s0 -> run sched s0 = Some s ->
  side_effect_of rid e ->
  precedes (accepted rid) e (trace s).
Proof.
  intros Hstart Hrun Hside.
  assert (Hinv : response_first s).
  { eapply run_invariant; [apply response_first_step | | exact Hrun].
    eapply response_first_start; eauto. }
  destruct Hinv as (Hord & _). now apply ordered_precedes.
Qed.

Lemma response_precedes_effects_witness :
  exists s,
    run [Demo.execute Demo.body_print; Demo.go; Demo.go; Demo.go; Demo.go;
         Demo.go; Demo.go; Work 0 None; Work 0 None; Work 0 None; Work 0 None;
         Work 0 None; Work 0 None; Work 0 None; Work 0 None] Demo.logging
    = Some s
    /\ RunCell 0 ("x = 1" +:+ Text.nl +:+ "print(x)") ∈ trace s
    /\ precedes (accepted 0) (RunCell 0 ("x = 1" +:+ Text.nl +:+ "print(x)"))
         (trace s).
Proof.
  eexists. split; [vm_compute; reflexivity|]. split.
  - do 3 apply list_elem_of_further. apply list_elem_of_here.
  - apply (response_precedes_effects Demo.with_log Demo.env ∅ Demo.logging
             [Demo.execute Demo.body_print; Demo.go; Demo.go; Demo.go; Demo.go;
              Demo.go; Demo.go; Work 0 None; Work 0 None; Work 0 None;
              Work 0 None; Work 0 None; Work 0 None; Work 0 None; Work 0 None]);
      [vm_compute; reflexivity | vm_compute; reflexivity | reflexivity].
Defined.

(** ** De-indentation *)

Section Dedent.
Import Textwrap.

Lemma all_chars_drop_while (p : ascii -> bool) (l : string) :
  all_chars p l = true <-> Text.drop_while p l = "".
Proof.
  induction l as [|c t IH]; [easy|].
  cbn [all_chars Text.drop_while]. destruct (p c); cbn; [exact IH | easy].
Qed.

Lemma has_text_indent (l : string) :
  indent_of l = if has_text l then Some (Text.take_while is_blank l) else None.
Proof.
  unfold indent_of, has_text.
  destruct (all_chars is_blank l) eqn:Hall; cbn.
  - apply all_chars_drop_while in Hall. now rewrite Hall.
  - destruct (Text.drop_while is_blank l) eqn:Hd; [|reflexivity].
    apply all_chars_drop_while in Hd. congruence.
Qed.

Lemma blank_out_spec (l : string) :
  blank_out l = if has_text l then l else "".
Proof.
  unfold blank_out, whitespace_only, has_text.
  destruct l as [|c t]; [reflexivity|].
  destruct (all_chars is_blank (String c t)) eqn:Hall; cbn [negb].
  - apply all_chars_drop_while in Hall. now rewrite Hall.
  - destruct (Text.drop_while is_blank (String c t)) eqn:Hd; [|reflexivity].
    apply all_chars_drop_while in Hd. congruence.
Qed.

Lemma has_text_blank_out (l : string) : has_text (blank_out l) = has_text l.
Proof. rewrite blank_out_spec. now destruct (has_text l) eqn:H. Qed.

Lemma indent_blank_out (l : string) : indent_of (blank_out l) = indent_of l.
Proof.
  rewrite !has_text_indent, has_text_blank_out, blank_out_spec.
  now destruct (has_text l).
Qed.

(** *** Prefixes *)

Lemma startswith_refl (s : string) : startswith s s = true.
Proof. induction s as [|c t IH]; [reflexivity|]. cbn. now rewrite Ascii.eqb_refl. Qed.

Lemma startswith_trans :
  forall a b c : string,
    startswith a b = true -> startswith b c = true -> startswith a c = true.
Proof.
  induction a as [|x a IH]; intros b c Hab Hbc.
  - destruct b; [|discriminate]. now destruct c.
  - destruct c as [|z c]; [reflexivity|]. destruct b as [|y b]; [discriminate|].
    cbn in *. apply andb_true_iff in Hab as [Hyx Hab].
    apply andb_true_iff in Hbc as [Hzy Hbc].
    apply Ascii.eqb_eq in Hyx as ->. rewrite Hzy. cbn. eauto.
Qed.

Lemma startswith_antisym :
  forall a b : string,
    startswith a b = true -> startswith b a = true -> a = b.
Proof.
  induction a as [|x a IH]; intros [|y b] Hab Hba; try discriminate;
    [reflexivity|].
  cbn in *. apply andb_true_iff in Hab as [Hyx Hab].
  apply andb_true_iff in Hba as [_ Hba].
  apply Ascii.eqb_eq in Hyx as ->. f_equal. auto.
Qed.

Lemma startswith_take_while (p : ascii -> bool) (l : string) :
  startswith l (Text.take_while p l) = true.
Proof.
  induction l as [|c t IH]; [reflexivity|]. cbn [Text.take_while].
  destruct (p c); [|reflexivity]. cbn. now rewrite Ascii.eqb_refl.
Qed.

Lemma all_chars_take_while (p : ascii -> bool) (l : string) :
  all_chars p (Text.take_while p l) = true.
Proof.
  induction l as [|c t IH]; [reflexivity|]. cbn [Text.take_while].
  destruct (p c) eqn:Hc; [|reflexivity]. cbn. now rewrite Hc.
Qed.

(** a prefix of characters of [p] is a prefix of the longest one *)
Lemma startswith_into_take_while (p : ascii -> bool) :
  forall l m : string,
    all_chars p m = true -> startswith l m = true ->
    startswith (Text.take_while p l) m = true.
Proof.
  induction l as [|c t IH]; intros [|x m] Hall Hpre; try discriminate;
    try (now destruct (Text.take_while p (String c t))); try reflexivity.
  cbn in *. apply andb_true_iff in Hall as [Hx Hall].
  apply andb_true_iff in Hpre as [Hxc Hpre].
  apply Ascii.eqb_eq in Hxc as <-. rewrite Hx. cbn.
  rewrite Ascii.eqb_refl. cbn. auto.
Qed.

Lemma all_chars_prefix (p : ascii -> bool) :
  forall l m : string,
    all_chars p l = true -> startswith l m = true -> all_chars p m = true.
Proof.
  induction l as [|c t IH]; intros [|x m] Hall Hpre; try discriminate;
    try reflexivity.
  cbn in *. apply andb_true_iff in Hall as [Hc Hall].
  apply andb_true_iff in Hpre as [Hxc Hpre].
  apply Ascii.eqb_eq in Hxc as ->. rewrite Hc. cbn. eauto.
Qed.

(** [common_prefix] is the longest common prefix *)
Lemma common_prefix_l :
  forall a b : string, startswith a (common_prefix a b) = true.
Proof.
  induction a as [|x a IH]; intros [|y b]; try reflexivity.
  cbn. destruct (Ascii.eqb_spec x y); [|reflexivity].
  cbn. rewrite Ascii.eqb_refl. apply IH.
Qed.

Lemma common_prefix_r :
  forall a b : string, startswith b (common_prefix a b) = true.
Proof.
  induction a as [|x a IH]; intros [|y b]; try reflexivity.
  cbn. destruct (Ascii.eqb_spec x y) as [-> |]; [|reflexivity].
  cbn. rewrite Ascii.eqb_refl. apply IH.
Qed.

Lemma common_prefix_greatest :
  forall a b m : string,
    startswith a m = true -> startswith b m = true ->
    startswith (common_prefix a b) m = true.
Proof.
  induction a as [|x a IH]; intros [|y b] [|z m] Ha Hb; try discriminate;
    try reflexivity;
    try (now destruct (common_prefix (String x a) (String y b))).
  cbn in *. apply andb_true_iff in Ha as [Hzx Ha].
  apply andb_true_iff in Hb as [Hzy Hb].
  apply Ascii.eqb_eq in Hzx as ->. apply Ascii.eqb_eq in Hzy as ->.
  rewrite Ascii.eqb_refl. cbn. rewrite Ascii.eqb_refl. cbn. auto.
Qed.

(** the three cases of the loop give the common prefix *)
Lemma update_margin_spec (m indent : string) :
  update_margin (Some m) indent = Some (common_prefix m indent).
Proof.
  unfold update_margin.
  destruct (startswith indent m) eqn:H1.
  - f_equal. apply startswith_antisym.
    + apply common_prefix_l.
    + now apply common_prefix_greatest; [apply startswith_refl|].
  - destruct (startswith m indent) eqn:H2; [|reflexivity].
    f_equal. apply startswith_antisym.
    + apply common_prefix_r.
    + now apply common_prefix_greatest; [|apply startswith_refl].
Qed.

Lemma fold_margin (indents : list string) :
  forall m : string,
    exists M,
      fold_left update_margin indents (Some m) = Some M
      /\ startswith m M = true
      /\ (forall i, i ∈ indents -> startswith i M = true)
      /\ (forall m', startswith m m' = true ->
            (forall i, i ∈ indents -> startswith i m' = true) ->
            startswith M m' = true).
Proof.
  induction indents as [|i rest IH]; intros m.
  - exists m. split; [reflexivity|]. split; [apply startswith_refl|].
    split; [intros i Hi; inversion Hi | auto].
  - cbn [fold_left]. rewrite update_margin_spec.
    destruct (IH (common_prefix m i)) as (M & Hfold & Hm & Hall & Hgreat).
    exists M. split; [exact Hfold|]. split.
    + eapply startswith_trans; [apply common_prefix_l | exact Hm].
    + split.
      * intros j Hj. apply elem_of_cons in Hj as [-> | Hj]; [|auto].
        eapply startswith_trans; [apply common_prefix_r | exact Hm].
      * intros m' Hm' Hall'. apply Hgreat.
        -- apply common_prefix_greatest; [exact Hm'|].
           apply Hall'. apply list_elem_of_here.
        -- intros j Hj. apply Hall'. now apply list_elem_of_further.
Qed.

(** the indents the margin is taken over *)
Lemma indents_of_lines (lines : list string) (i : string) :
  i ∈ omap indent_of lines
  <-> exists l, l ∈ lines /\ has_text l = true
                /\ i = Text.take_while is_blank l.
Proof.
  rewrite list_elem_of_omap. split.
  - intros (l & Hl & Hi). rewrite has_text_indent in Hi.
    destruct (has_text l) eqn:Ht; [|discriminate].
    injection Hi as <-. eauto.
  - intros (l & Hl & Ht & ->). exists l. split; [exact Hl|].
    now rewrite has_text_indent, Ht.
Qed.

Lemma find_margin_none (lines : list string) :
  find_margin lines = None -> forall l, l ∈ lines -> has_text l = false.
Proof.
  unfold find_margin. intros Hnone l Hl.
  destruct (has_text l) eqn:Ht; [|reflexivity].
  assert (Hin : Text.take_while is_blank l ∈ omap indent_of lines)
    by (apply indents_of_lines; eauto).
  destruct (omap indent_of lines) as [|i rest]; [inversion Hin|].
  cbn in Hnone. destruct (fold_margin rest i) as (M & HM & _).
  congruence.
Qed.

Lemma find_margin_some (lines : list string) (M : string) :
  find_margin lines = Some M -> longest_common_indent M lines.
Proof.
  unfold find_margin. intros Hsome.
  destruct (omap indent_of lines) as [|i rest] eqn:Hind; [discriminate|].
  cbn in Hsome. destruct (fold_margin rest i) as (M' & HM & Hi & Hall & Hgreat).
  rewrite HM in Hsome. injection Hsome as ->.
  assert (Hin : forall j, j ∈ i :: rest ->
            exists l, l ∈ lines /\ has_text l = true
                      /\ j = Text.take_while is_blank l)
    by (intros j Hj; apply indents_of_lines; now rewrite Hind).
  assert (Hevery : forall l, l ∈ lines -> has_text l = true ->
            Text.take_while is_blank l ∈ i :: rest).
  { intros l Hl Ht. rewrite <- Hind. apply indents_of_lines. eauto. }
  assert (Hpre : forall j, j ∈ i :: rest -> startswith j M = true).
  { intros j Hj. apply elem_of_cons in Hj as [-> | Hj]; auto. }
  split; [split|].
  - destruct (Hin i (list_elem_of_here _ _)) as (l & _ & _ & ->).
    eapply all_chars_prefix; [apply all_chars_take_while | exact Hi].
  - intros l Hl Ht. eapply startswith_trans;
      [apply (startswith_take_while is_blank) | apply Hpre; auto].
  - intros m' (Hblank & Hcommon). apply Hgreat.
    + destruct (Hin i (list_elem_of_here _ _)) as (l & Hl & Ht & ->).
      apply startswith_into_take_while; auto.
    + intros j Hj.
      destruct (Hin j (list_elem_of_further _ _ _ Hj)) as (l & Hl & Ht & ->).
      apply startswith_into_take_while; auto.
Qed.

Lemma map_blank_out_margin (lines : list string) :
  find_margin (map blank_out lines) = find_margin lines.
Proof.
  unfold find_margin. f_equal.
  induction lines as [|l rest IH]; [reflexivity|].
  cbn [map omap list_omap]. rewrite indent_blank_out.
  destruct (indent_of l); cbn; now rewrite IH.
Qed.

Lemma map_agree {A B} (f g : A -> B) (l : list A) :
  (forall x, x ∈ l -> f x = g x) -> map f l = map g l.
Proof.
  induction l as [|x l IH]; intros H; [reflexivity|]. cbn.
  rewrite (H x (list_elem_of_here _ _)). f_equal. apply IH.
  intros y Hy. apply H. now apply list_elem_of_further.
Qed.

(** [textwrap.dedent] removes the longest common leading whitespace *)
Lemma dedent_spec (text : string) : deindented text (dedent text).
Proof.
  unfold deindented, dedent. cbv zeta.
  set (lines := Text.split (ascii_of_nat 10) text).
  rewrite map_blank_out_margin.
  destruct (find_margin lines) as [M|] eqn:Hmargin.
  - pose proof (find_margin_some _ _ Hmargin) as Hlongest.
    exists M. split; [auto|].
    assert (Hlines : map (remove_margin M) (map blank_out lines)
                     = map (deindent M) lines).
    { rewrite map_map. apply map_agree. intros l Hl.
      rewrite blank_out_spec. unfold remove_margin, deindent.
      destruct (has_text l) eqn:Ht.
      - destruct Hlongest as ((_ & Hcommon) & _). now rewrite (Hcommon l Hl Ht).
      - now destruct M. }
    destruct M as [|c m]; [|now rewrite Hlines].
    f_equal. rewrite <- Hlines. rewrite !map_map. apply map_agree.
    intros l _. unfold remove_margin. cbn. now destruct (blank_out l).
  - exists "". split.
    + intros Hex. apply Exists_exists in Hex as (l & Hl & Ht).
      now rewrite (find_margin_none _ Hmargin l Hl) in Ht.
    + f_equal. apply map_agree. intros l Hl.
      rewrite blank_out_spec. unfold deindent.
      now rewrite (find_margin_none _ Hmargin l Hl).
Qed.

(** and that determines it *)
Lemma deindented_unique (text unit1 unit2 : string) :
  deindented text unit1 -> deindented text unit2 -> unit1 = unit2.
Proof.
  unfold deindented. cbv zeta.
  intros (m1 & H1 & ->) (m2 & H2 & ->). f_equal. apply map_agree.
  intros l Hl. unfold deindent. destruct (has_text l) eqn:Ht; [|reflexivity].
  assert (Hex : Exists (fun l => has_text l = true)
                  (Text.split (ascii_of_nat 10) text)).
  { apply Exists_exists. exists l. split; [exact Hl | exact Ht]. }
  destruct (H1 Hex) as (Hc1 & Hg1). destruct (H2 Hex) as (Hc2 & Hg2).
  now rewrite (startswith_antisym m1 m2 (Hg1 _ Hc2) (Hg2 _ Hc1)).
Qed.

End Dedent.

(** ** The unit that is run *)

Section Units.
Context `{C : Collaborators}.

Lemma unit_after_goto (m : gmap nat worker) (wid : nat) (w : worker)
    (pc : worker_pc) (rid : nat) (unit : string) :
  m !! wid = Some w ->
  (exists w0, m !! rid = Some w0 /\ unit = code_str w0) ->
  exists w0, <[wid := goto w pc]> m !! rid = Some w0 /\ unit = code_str w0.
Proof.
  intros Hw (w0 & Hw0 & ->). destruct (decide (wid = rid)) as [<- | Hne].
  - rewrite lookup_insert_eq. exists (goto w pc). split; [reflexivity|].
    simpl. congruence.
  - rewrite lookup_insert_ne by exact Hne. eauto.
Qed.

Lemma unit_after_spawn (m : gmap nat worker) (rid : nat) (w : worker)
    (rid0 : nat) (unit : string) :
  m !! rid = None ->
  (exists w0, m !! rid0 = Some w0 /\ unit = code_str w0) ->
  exists w0, <[rid := w]> m !! rid0 = Some w0 /\ unit = code_str w0.
Proof.
  intros Hnone (w0 & Hw0 & ->). exists w0. split; [|reflexivity].
  rewrite lookup_insert_ne; [exact Hw0 | congruence].
Qed.

Lemma fresh_after_goto (m : gmap nat worker) (wid : nat) (w x : worker)
    (rid : nat) :
  m !! wid = Some w -> m !! rid = None -> <[wid := x]> m !! rid = None.
Proof. intros Hw Hnone. rewrite lookup_insert_ne; [exact Hnone | congruence]. Qed.

Lemma next_rid_fresh (s : state) :
  (forall rid w, workers s !! rid = Some w ->
     (rid < next_rid s)%nat
     /\ code_str w = Textwrap.dedent (Text.join Text.nl (code_lines w))) ->
  workers s !! next_rid s = None.
Proof.
  intros U1. destruct (workers s !! next_rid s) as [w|] eqn:Hw; [|reflexivity].
  destruct (U1 _ _ Hw). lia.
Qed.

Lemma units_step (a : action) (s s' : state) :
  units_inv s -> step a s = Some s' -> units_inv s'.
Proof.
  intros (U1 & U3 & U2) H.
  pose proof (next_rid_fresh s U1) as Hfresh.
  step_cases H; unfold units_inv; cbn; rewrite ?Hpc in *; cbn in *;
    (split; [|split]); intros;
    repeat match goal with
           | H1 : _ ∈ _ :: _ |- _ => apply elem_of_cons in H1 as [H1 | H1]
           | H1 : Some _ = Some _ |- _ => injection H1 as <-
           | H1 : RunCell _ _ = RunCell _ _ |- _ => injection H1 as -> ->
           end;
    try discriminate;
    inv_insert; cbn;
    try (edestruct U1 as [? ?]; [eassumption|]; split; [lia | assumption]);
    try (destruct (U3 _ eq_refl) as [? ?]);
    try match goal with
        | H1 : exec_rid (server s) = Some _ |- _ =>
            destruct (U3 _ H1) as [? ?]
        end;
    try (split; [lia || assumption|]);
    eauto using unit_after_goto, unit_after_spawn, fresh_after_goto;
    try (rewrite lookup_insert_eq; eauto).
Qed.

Lemma units_start (a : args) (env : startup) (fs : gmap string string)
    (s0 : state) :
  run_server a env fs = Some s0 -> units_inv s0.
Proof.
  intros H.
  apply run_server_shape in H as (Hpc & Hw & _ & _ & _ & _ & Htrace).
  unfold units_inv. rewrite Hpc, Hw.
  repeat split; try (intros; discriminate).
  intros rid unit Hin. exfalso.
  induction Htrace as [|e t He _ IH]; [inversion Hin|].
  apply elem_of_cons in Hin as [<- | Hin]; [exact He | auto].
Qed.

Lemma str_items_strings (lines : list string) (i : nat) :
  str_items i (JStr <$> lines) = inr lines.
Proof.
  revert i. induction lines as [|l rest IH]; intros i; [reflexivity|].
  cbn. now rewrite IH.
Qed.

(** a request with these lines that finds the gate open: the response,
    the echo of the code, and the unit run *)
Lemma accepted_unit (s : state) (sh : Shell) (text : string)
    (lines : list string) (io1 io2 io3 io4 io5 io6 : option exn) :
  server s = SIdle -> ipshell s = Some sh -> execution_lock s = None ->
  is_executing s = false ->
  validate_code_exc_data text = (JStr <$> lines, None) ->
  let rid := next_rid s in
  exists s',
    run [Arrive (POST "/execute" (inr text));
         Serve io1; Serve io2; Serve io3; Serve io4; Serve io5; Serve io6;
         Work rid None; Work rid None] s = Some s'
    /\ trace s'
       = RunCell rid (Textwrap.dedent (Text.join Text.nl lines))
         :: Console (WorkerThread rid) (Syntax (format_code lines))
         :: accepted rid :: FlagWrite ServerThread true :: trace s
    /\ ipshell s'
       = Some (after_cell
                 (run_cell sh (Textwrap.dedent (Text.join Text.nl lines)) false)).1.
Proof.
  intros Hpc Hsh Hlock Hflag Hval rid.
  erewrite run_cons by (eapply arrive_execute; eassumption).
  erewrite run_cons by (eapply serve_exec_acquire; [reflexivity | exact Hlock]).
  erewrite run_cons by (eapply serve_exec_test_idle; [reflexivity | exact Hflag]).
  erewrite run_cons by (eapply serve_exec_set; reflexivity).
  erewrite run_cons by (eapply serve_exec_leave; reflexivity).
  erewrite run_cons by (eapply serve_exec_accept; reflexivity).
  erewrite run_cons by (eapply serve_exec_spawn; reflexivity).
  unfold spawn. rewrite str_items_strings.
  erewrite run_cons
    by (eapply work_echo; [apply lookup_insert_eq | reflexivity]).
  erewrite run_cons
    by (eapply work_run; [apply lookup_insert_eq | reflexivity | exact Hsh]).
  eexists. repeat split.
Qed.

End Units.

(** C9: a request whose list of lines is accepted (a single line
    included) has as its unit, given to [run_cell], the lines joined
    with newlines with the longest common leading whitespace of the
    lines removed: the longest run of blanks and tabs that every line
    with another character starts with (lines of blanks and tabs only
    come out empty); and in every run of a started server each unit run
    is that of the lines of its worker. *)
Theorem unit_is_dedented `{C : Collaborators} (s : state) :
  (forall sh text lines io1 io2 io3 io4 io5 io6,
      server s = SIdle -> ipshell s = Some sh -> execution_lock s = None ->
      is_executing s = false ->
      validate_code_exc_data text = (JStr <$> lines, None) ->
      exists s' unit,
        run [Arrive (POST "/execute" (inr text));
             Serve io1; Serve io2; Serve io3; Serve io4; Serve io5; Serve io6;
             Work (next_rid s) None; Work (next_rid s) None] s = Some s'
        /\ trace s'
           = RunCell (next_rid s) unit
             :: Console (WorkerThread (next_rid s)) (Syntax (format_code lines))
             :: accepted (next_rid s) :: FlagWrite ServerThread true :: trace s
        /\ Textwrap.deindented (Text.join Text.nl lines) unit)
  /\ (forall a env fs s0 sched rid unit,
        run_server a env fs = Some s0 -> run sched s0 = Some s ->
        RunCell rid unit ∈ trace s ->
        exists w,
          workers s !! rid = Some w
          /\ Textwrap.deindented (Text.join Text.nl (code_lines w)) unit).
Proof.
  split.
  - intros sh text lines io1 io2 io3 io4 io5 io6 Hpc Hsh Hlock Hflag Hval.
    destruct (accepted_unit s sh text lines io1 io2 io3 io4 io5 io6
                Hpc Hsh Hlock Hflag Hval) as (s' & Hrun & Htrace & _).
    exists s', (Textwrap.dedent (Text.join Text.nl lines)).
    split; [exact Hrun|]. split; [exact Htrace | apply dedent_spec].
  - intros a env fs s0 sched rid unit Hstart Hrun Hin.
    assert (Hinv : units_inv s).
    { eapply run_invariant; [apply units_step | | exact Hrun].
      eapply units_start; eauto. }
    destruct Hinv as (U1 & _ & U2).
    destruct (U2 _ _ Hin) as (w & Hw & ->).
    exists w. split; [exact Hw|].
    destruct (U1 _ _ Hw) as (_ & ->). apply dedent_spec.
Qed.

Lemma unit_is_dedented_witness :
  exists s',
    run [Arrive (POST "/execute" (inr Demo.body_indented));
         Serve None; Serve None; Serve None; Serve None; Serve None; Serve None;
         Work (next_rid Demo.idle) None; Work (next_rid Demo.idle) None]
      Demo.idle = Some s'
    /\ trace s'
       = RunCell (next_rid Demo.idle) "y = 2"
         :: Console (WorkerThread (next_rid Demo.idle))
              (Syntax (format_code ["    y = 2"]))
         :: accepted (next_rid Demo.idle)
         :: FlagWrite ServerThread true :: trace Demo.idle.
Proof.
  destruct (unit_is_dedented Demo.idle) as [Hseq _].
  destruct (Hseq ["%autoreload 2"; "%load_ext autoreload"] Demo.body_indented
              ["    y = 2"] None None None None None None
              eq_refl eq_refl eq_refl eq_refl eq_refl)
    as (s' & unit & Hrun & Htrace & Hunit).
  exists s'. split; [exact Hrun|]. rewrite Htrace.
  now rewrite (deindented_unique _ _ "y = 2" Hunit
                 (dedent_spec (Text.join Text.nl ["    y = 2"]))).
Defined.

Example single_line_unit :
  Textwrap.dedent (Text.join Text.nl ["    y = 2"]) = "y = 2"
  /\ Textwrap.dedent
       (Text.join Text.nl ["  if x:"; "    y = 1"; "   "; "  z = 2"])
     = "if x:" +:+ Text.nl +:+ "  y = 1" +:+ Text.nl +:+ Text.nl +:+ "z = 2".
Proof. split; vm_compute; reflexivity. Qed.

(** ** The transcript *)

Section Transcript.
Context `{C : Collaborators}.

Lemma append_assoc (a b c : string) : (a +:+ b) +:+ c = a +:+ b +:+ c.
Proof.
  induction a as [|x a IH]; [reflexivity|].
  change (String x ((a +:+ b) +:+ c) = String x (a +:+ b +:+ c)).
  now rewrite IH.
Qed.

Lemma header_step (file head : string) (a : action) (s s' : state) :
  header_once file head s -> step a s = Some s' -> header_once file head s'.
Proof.
  intros (Hfile_path & Hcount & records & Hfile) H.
  step_cases H; unfold header_once, append_file; cbn;
    (split; [congruence|]); (split; [assumption|]);
    eauto;
    injection Hfile_path as ->;
    rewrite lookup_insert_eq, Hfile;
    change (or_empty (Some ?x)) with x;
    rewrite append_assoc; eauto.
Qed.

(** with a log directory and no I/O error, [run_server] has made the
    file and written the header when it starts to serve *)
Lemma header_start (a : args) (env : startup) (fs : gmap string string)
    (s0 : state) (dir : string) :
  run_server a env fs = Some s0 ->
  log_dir a = Some dir -> dir <> "" -> log_io env = None ->
  let file := path_join (path_join dir ".pyrepl")
                (log_file_name (stamp env) (log_name a)) in
  log_file_path s0 = Some file
  /\ files s0
     = <[file := or_empty (fs !! file)
                 +:+ log_header (now env) dir (log_name a)]> fs
  /\ trace s0
     = [Console ServerThread
          (Markup ("[bold blue]Server running on http://localhost:" +:+ port env));
        Console ServerThread
          (Markup "[blue]Initializing IPython & loading default extensions...");
        LogHeader file;
        Console ServerThread
          (Markup ("[blue]Logging enabled. Log file: " +:+ file))].
Proof.
  intros Hrun Hdir Hne Hio file. unfold run_server, setup_logging in Hrun.
  rewrite Hdir, Hio in Hrun. destruct dir as [|c d]; [contradiction|].
  destruct (run_cell new_shell _ true) as [sh1 ? ? ?| |]; try discriminate.
  destruct (run_cell sh1 _ true) as [sh2 ? ? ?| |]; try discriminate.
  destruct (bind env); [discriminate|].
  injection Hrun as <-. repeat split.
Qed.

End Transcript.

(** C8, as the specification has it, fails: the log file is made and its
    header written by [run_server] before the first request is served.
    After start-up with [--log-dir /tmp/proj --log-name "my session"]
    the file is there with the header, and nothing has been appended. *)
Lemma log_file_made_at_startup :
  run_server Demo.with_log Demo.env ∅ = Some Demo.logging
  /\ next_rid Demo.logging = 0%nat
  /\ appends (trace Demo.logging) = []
  /\ log_file_path Demo.logging = Some Demo.log_path
  /\ files Demo.logging !! Demo.log_path
     = Some ("# PyREPL Session Log: 2026-11-03 10:15:00.000001" +:+ Text.nl
             +:+ "# CWD: /tmp/proj" +:+ Text.nl
             +:+ "# Session Name: my session" +:+ Text.nl +:+ Text.nl).
Proof. repeat split; vm_compute; reflexivity. Qed.

(** C8 (amended): the transcript logger is set up at start-up, not on
    the first write.  When a log directory is given and no I/O error
    occurs, [run_server] makes the file (named by the time stamp and the
    sanitized session name, in [.pyrepl] under the log directory) and
    writes the header block before any request is served; in every run
    after that the log path stays the same, the header has been written
    exactly once, and the file is the header followed by what was
    appended. *)
Theorem log_header_once `{C : Collaborators}
    (a : args) (env : startup) (fs : gmap string string) (s0 : state)
    (dir : string) (sched : list action) (s : state) :
  run_server a env fs = Some s0 ->
  log_dir a = Some dir -> dir <> "" -> log_io env = None ->
  run sched s0 = Some s ->
  let file := path_join (path_join dir ".pyrepl")
                (log_file_name (stamp env) (log_name a)) in
  let head := or_empty (fs !! file) +:+ log_header (now env) dir (log_name a) in
  (next_rid s0 = 0%nat /\ appends (trace s0) = []
   /\ header_once file head s0 /\ files s0 !! file = Some head)
  /\ header_once file head s.
Proof.
  intros Hstart Hdir Hne Hio Hrun file head.
  destruct (header_start a env fs s0 dir Hstart Hdir Hne Hio)
    as (Hpath & Hfiles & Htrace).
  fold file in Hpath, Hfiles, Htrace. fold head in Hfiles.
  assert (Hfile : files s0 !! file = Some head)
    by (rewrite Hfiles; apply lookup_insert_eq).
  assert (Hinit : header_once file head s0).
  { split; [exact Hpath|]. split; [now rewrite Htrace|].
    exists "". rewrite Hfile. f_equal.
    clear. induction head as [|x h IH]; [reflexivity|].
    change (String x h = String x (h +:+ "")). now f_equal. }
  split.
  - apply run_server_shape in Hstart as (_ & _ & _ & _ & Hrid & _).
    split; [exact Hrid|]. split; [now rewrite Htrace|]. split; assumption.
  - eapply run_invariant; [apply header_step | exact Hinit | exact Hrun].
Qed.

Lemma log_header_once_witness :
  exists s,
    run [Demo.execute Demo.body_print; Demo.go; Demo.go; Demo.go; Demo.go;
         Demo.go; Demo.go; Work 0 None; Work 0 None; Work 0 None; Work 0 None;
         Work 0 None; Work 0 None; Work 0 None; Work 0 None] Demo.logging
    = Some s
    /\ count_headers (trace s) = 1%nat
    /\ log_file_path s
       = Some (path_join (path_join "/tmp/proj" ".pyrepl")
                 (log_file_name (stamp Demo.env) (log_name Demo.with_log))).
Proof.
  eexists. split; [vm_compute; reflexivity|].
  edestruct (log_header_once Demo.with_log Demo.env ∅ Demo.logging "/tmp/proj"
               [Demo.execute Demo.body_print; Demo.go; Demo.go; Demo.go;
                Demo.go; Demo.go; Demo.go; Work 0 None; Work 0 None;
                Work 0 None; Work 0 None; Work 0 None; Work 0 None; Work 0 None;
                Work 0 None])
    as (_ & Hpath & Hcount & _);
    [vm_compute; reflexivity | reflexivity | discriminate | reflexivity
    | vm_compute; reflexivity |].
  split; [exact Hcount | exact Hpath].
Defined.

(** ** Reset *)

Section Reset.
Context `{C : Collaborators}.


(** [write_to_log] touches the files and the trace only *)
Lemma write_to_log_frame (io : option exn) (who : thread_id)
    (lines : list string) (result : gmap string string) (s : state) :
  let s' := write_to_log io who lines result s in
  ipshell s' = ipshell s /\ log_file_path s' = log_file_path s
  /\ is_executing s' = is_executing s
  /\ execution_lock s' = execution_lock s
  /\ server s' = server s /\ workers s' = workers s
  /\ next_rid s' = next_rid s.
Proof.
  unfold write_to_log.
  destruct (log_file_path s) as [[|c p]|] eqn:Hlog; destruct io;
    cbn; rewrite ?Hlog; repeat split.
Qed.

End Reset.




(** ** Release of the gate *)

Section Release.
Context `{C : Collaborators}.

(** [join] raises in the handler, outside any [try]: the response is
    out, the flag is set, and no worker is started to clear it *)
Lemma join_error_keeps_flag (s : state) (io : option exn) (rid : nat)
    (code : list json) (e : exn) :
  server s = SExecSpawn rid code -> str_items 0 code = inl e ->
  step (Serve io) s
  = Some (emit (Uncaught ServerThread e) (set_server SIdle s)).
Proof.
  intros Hpc Hitems. erewrite serve_exec_spawn by exact Hpc.
  unfold spawn. now rewrite Hitems.
Qed.

(** the echo of the code at line 87 is outside the [try] as well: when
    it raises, the worker ends without writing the flag *)
Lemma echo_error_keeps_flag (s : state) (rid : nat) (w : worker) (e : exn) :
  workers s !! rid = Some w -> w_pc w = WEcho ->
  step (Work rid (Some e)) s
  = Some (set_worker rid (goto w WDone)
            (emit (Uncaught (WorkerThread rid) e) s)).
Proof. intros Hw Hpc. cbn [step]. unfold work. now rewrite Hw, Hpc. Qed.

(** with the flag set and no worker, only a reset clears the flag *)
Lemma stuck_step (a : action) (s s' : state) :
  is_reset a = false -> stuck s -> step a s = Some s' -> stuck s'.
Proof.
  intros Ha (Hbusy & Hnone & Hserver) H.
  step_cases H; unfold stuck; cbn;
    try (cbn in Ha; rewrite ?Hexecute, ?Hreset in Ha; discriminate Ha);
    try (rewrite Hnone in Hw; discriminate Hw);
    rewrite ?Hpc in *; try contradiction; try congruence;
    repeat split; auto.
Qed.

Lemma stuck_stays (sched : list action) (s s' : state) :
  forallb (fun a => negb (is_reset a)) sched = true ->
  stuck s -> run sched s = Some s' -> is_executing s' = true.
Proof.
  intros Hsched Hstuck Hrun.
  assert (Hinv : stuck s').
  { eapply (run_invariant_where (fun a => negb (is_reset a))); eauto.
    intros a s1 s2 Hok. apply stuck_step. now apply negb_true_iff in Hok. }
  now destruct Hinv.
Qed.

(** inside the [try], whatever the engine and the console do, every
    step is one nearer to the [finally] *)
Lemma try_block_advances (s : state) (rid : nat) (w : worker) (sh : Shell)
    (io : option exn) :
  workers s !! rid = Some w -> ipshell s = Some sh ->
  (0 < try_rank (w_pc w))%nat ->
  exists s' w',
    step (Work rid io) s = Some s'
    /\ workers s' !! rid = Some w'
    /\ (try_rank (w_pc w') < try_rank (w_pc w))%nat
    /\ in_flight w' = true
    /\ is_executing s' = is_executing s
    /\ exists sh', ipshell s' = Some sh'.
Proof.
  intros Hw Hsh Hrank. cbn [step]. unfold work. rewrite Hw.
  destruct (w_pc w) eqn:Hpc; cbn in Hrank; try lia; rewrite ?Hsh;
    repeat match goal with
           | |- context [run_cell ?x ?y ?z] => destruct (run_cell x y z)
           | |- context [match io with Some _ => _ | None => _ end] =>
               destruct io
           | |- context [truthy ?x] => destruct (truthy x)
           end;
    eexists; eexists; (split; [reflexivity|]); cbn;
    rewrite lookup_insert_eq; (split; [reflexivity|]); cbn;
    unfold echo_stderr, echo_stdout;
    repeat match goal with
           | |- context [if truthy ?x then _ else _] => destruct (truthy x)
           end;
    cbn; repeat split; eauto; lia.
Qed.

(** and the [finally] clears the flag, and then logs *)
Lemma worker_clears_then_logs (s : state) (rid : nat) (w : worker) :
  workers s !! rid = Some w ->
  match w_pc w with
  | WFinally result pending =>
      execution_lock s = None ->
      forall io1 io2 io3 io4,
      exists s',
        run [Work rid io1; Work rid io2; Work rid io3; Work rid io4] s = Some s'
        /\ is_executing s' = false
        /\ exists t, trace s' = (t ++ FlagWrite (WorkerThread rid) false
                                      :: trace s)%list
                     /\ Forall (fun e => e <> FlagWrite (WorkerThread rid) false) t
  | _ => True
  end.
Proof.
  intros Hw.
  destruct (w_pc w) as [| | | | | | result pending | | | |] eqn:Hpc;
    try exact I.
  intros Hlock io1 io2 io3 io4.
  cbn [run step]. unfold work at 1. rewrite Hw, Hpc. unfold acquire.
  rewrite Hlock. cbn [fmap option_fmap option_map].
  unfold work at 1. cbn [workers set_worker set_lock].
  rewrite lookup_insert_eq. cbn [w_pc goto].
  unfold work at 1. cbn [workers set_worker set_is_executing].
  rewrite lookup_insert_eq. cbn [w_pc goto].
  unfold work at 1. cbn [workers set_worker release set_lock].
  rewrite lookup_insert_eq. cbn [w_pc goto code_lines].
  eexists. split; [reflexivity|].
  match goal with
  | |- context [write_to_log io4 ?who ?lines ?res ?s1] =>
      pose proof (write_to_log_frame io4 who lines res s1)
        as (_ & _ & Fflag & _);
      assert (Htrace : exists t,
                 trace (write_to_log io4 who lines res s1)
                 = (t ++ trace s1)%list
                 /\ Forall (fun e => e <> FlagWrite (WorkerThread rid) false) t)
        by (unfold write_to_log;
            destruct (log_file_path s1) as [[|c p]|];
            [exists [] | destruct io4; eexists [_] | exists []];
            (split; [reflexivity|]); repeat constructor; discriminate);
      set (s2 := write_to_log io4 who lines res s1) in *
  end.
  destruct Htrace as (t & Htrace & Hnot).
  destruct pending as [e|]; cbn.
  - split; [rewrite Fflag; reflexivity|].
    exists (Uncaught (WorkerThread rid) e :: t). rewrite Htrace.
    split; [reflexivity|]. constructor; [discriminate | exact Hnot].
  - split; [rewrite Fflag; reflexivity|].
    exists t. rewrite Htrace. split; [reflexivity | exact Hnot].
Qed.

End Release.

(** C2 is not what the code does.  The body [{"code": [1]}] passes
    validation (only the list is checked, not its items), the request
    is admitted and answered 200, and ["\n".join(code)] at line 182
    raises [TypeError] in the handler, outside the [try ... finally]:
    no worker is started, the flag stays set, and the next valid request
    is answered 409. *)
Theorem flag_stuck_after_join_error :
  exists s' s'',
    run [Demo.execute Demo.body_int_item;
         Demo.go; Demo.go; Demo.go; Demo.go; Demo.go; Demo.go] Demo.idle
    = Some s'
    /\ trace s'
       = Uncaught ServerThread
           (raise_ "TypeError" "sequence item 0: expected str instance, int found")
         :: accepted 0 :: FlagWrite ServerThread true :: trace Demo.idle
    /\ is_executing s' = true /\ workers s' = ∅ /\ server s' = SIdle
    /\ stuck s'
    /\ run [Demo.execute Demo.body_print; Demo.go; Demo.go; Demo.go] s' = Some s''
    /\ replies 1 409 [("error", "Server is busy executing previous code")] s' s''.
Proof.
  eexists. eexists. split; [vm_compute; reflexivity|].
  split; [vm_compute; reflexivity|]. split; [vm_compute; reflexivity|].
  split; [vm_compute; reflexivity|]. split; [vm_compute; reflexivity|].
  split; [repeat split; vm_compute; reflexivity|].
  split; [vm_compute; reflexivity|].
  repeat split; vm_compute; reflexivity.
Qed.

(** * Further properties *)

(** ** Runs and relations between their ends *)

Section Relations.
Context `{C : Collaborators}.


Lemma count_responses_cons (rid : nat) (e : event) (t : list event) :
  count_responses rid (e :: t)
  = ((if is_response_of rid e then 1 else 0) + count_responses rid t)%nat.
Proof. unfold count_responses. cbn. now destruct (is_response_of rid e). Qed.

#[local] Arguments count_responses : simpl never.

Lemma one_response_step (a : action) (s s' : state) :
  one_response s -> step a s = Some s' -> one_response s'.
Proof.
  intros (Hmost & Hnew & Hwait) H.
  step_cases H; unfold one_response; cbn;
    rewrite ?Hpc in *; cbn in *;
    try (destruct (Hwait _ eq_refl) as [Hlt Hzero]);
    repeat split; intros;
    repeat match goal with
           | H1 : Some _ = Some _ |- _ => injection H1 as <-
           end;
    try discriminate;
    rewrite ?count_responses_cons; cbn [is_response_of];
    repeat match goal with
           | |- context [Nat.eqb ?x ?y] => destruct (Nat.eqb_spec x y); subst
           end;
    repeat match goal with
           | |- context [count_responses ?r (trace s)] =>
               lazymatch goal with
               | _ : (count_responses r (trace s) <= 1)%nat |- _ => fail
               | _ => pose proof (Hmost r)
               end
           end;
    try (rewrite Hnew by lia);
    try match goal with
        | H1 : awaiting (server s) = Some _ |- _ => destruct (Hwait _ H1)
        end;
    try lia.
Qed.

Lemma exactly_one_step (a : action) (s s' : state) :
  readable a = true ->
  exactly_one s -> step a s = Some s' -> exactly_one s'.
Proof.
  intros Ha [Hone Hdone] H. split; [eapply one_response_step; eauto|].
  destruct Hone as (Hmost & Hnew & Hwait).
  step_cases H; cbn; try discriminate Ha;
    rewrite ?Hpc in *; cbn in *;
    try (destruct (Hwait _ eq_refl) as [Hlt Hzero]);
    intros rid0 Hrid0 Hnot;
    rewrite ?count_responses_cons; cbn [is_response_of];
    repeat match goal with
           | |- context [Nat.eqb ?x ?y] => destruct (Nat.eqb_spec x y); subst
           end;
    try (rewrite Hnew by lia);
    try congruence;
    try (rewrite Hdone by (congruence || lia));
    try lia;
    try (assert (rid0 <> next_rid s) by congruence;
         rewrite Hdone by (congruence || lia); lia).
Qed.

Lemma start_counts (t : list event) (rid : nat) :
  Forall (fun e => match e with
                   | Console ServerThread _ | LogHeader _ => True
                   | _ => False
                   end) t ->
  count_responses rid t = 0%nat /\ count_runs rid t = 0%nat
  /\ count_logs rid t = 0%nat.
Proof.
  induction 1 as [|e t He _ IH]; [repeat split|].
  unfold count_responses, count_runs, count_logs in *.
  destruct e as [| [] | | | | |]; try contradiction; exact IH.
Qed.

Lemma exactly_one_start (a : args) (env : startup) (fs : gmap string string)
    (s0 : state) :
  run_server a env fs = Some s0 -> exactly_one s0.
Proof.
  intros H. apply run_server_shape in H as (Hpc & _ & _ & _ & Hrid & _ & Ht).
  unfold exactly_one, one_response. rewrite Hpc, Hrid.
  repeat split; intros; try discriminate; try lia;
    destruct (start_counts _ rid Ht) as (-> & _); lia.
Qed.

End Relations.

(** X1: in every run of a started server no request is answered twice,
    and a request that has not yet arrived has no response; when the
    body of every request could be read, each request whose handler is
    through has exactly one response. *)
Theorem one_response_per_request `{C : Collaborators}
    (a : args) (env : startup) (fs : gmap string string) (s0 : state)
    (sched : list action) (s : state) (rid : nat) :
  run_server a env fs = Some s0 -> run sched s0 = Some s ->
  (count_responses rid (trace s) <= 1)%nat
  /\ ((next_rid s <= rid)%nat -> count_responses rid (trace s) = 0%nat)
  /\ (forallb readable sched = true ->
      (rid < next_rid s)%nat -> awaiting (server s) <> Some rid ->
      count_responses rid (trace s) = 1%nat).
Proof.
  intros Hstart Hrun.
  pose proof (exactly_one_start _ _ _ _ Hstart) as Hinit.
  assert (Hone : one_response s).
  { eapply run_invariant; [apply one_response_step | apply Hinit | exact Hrun]. }
  destruct Hone as (Hmost & Hnew & _).
  split; [apply Hmost|]. split; [apply Hnew|].
  intros Hsched.
  assert (Hex : exactly_one s).
  { eapply (run_invariant_where readable); eauto.
    intros a' s1 s2 Hok. now apply exactly_one_step. }
  apply Hex.
Qed.

Lemma one_response_per_request_witness :
  exists s,
    run [Demo.execute Demo.body_print; Demo.go; Demo.go; Demo.go; Demo.go;
         Demo.go; Demo.go; Demo.execute Demo.body_print; Demo.go; Demo.go;
         Demo.go] Demo.idle = Some s
    /\ count_responses 0 (trace s) = 1%nat
    /\ count_responses 1 (trace s) = 1%nat
    /\ count_responses 2 (trace s) = 0%nat.
Proof.
  eexists. split; [vm_compute; reflexivity|].
  pose proof (fun rid =>
    one_response_per_request Demo.no_log Demo.env ∅ Demo.idle
      [Demo.execute Demo.body_print; Demo.go; Demo.go; Demo.go; Demo.go;
       Demo.go; Demo.go; Demo.execute Demo.body_print; Demo.go; Demo.go;
       Demo.go] _ rid ltac:(vm_compute; reflexivity)
      ltac:(vm_compute; reflexivity)) as H.
  split; [|split].
  - apply (H 0%nat); [reflexivity | vm_compute; lia | vm_compute; discriminate].
  - apply (H 1%nat); [reflexivity | vm_compute; lia | vm_compute; discriminate].
  - apply (H 2%nat). vm_compute. lia.
Defined.


(** ** A started server keeps its shell *)

Section ShellUp.
Context `{C : Collaborators}.



End ShellUp.



(** ** The files *)

Section Files.
Context `{C : Collaborators}.

Lemma append_empty_r (a : string) : a +:+ "" = a.
Proof.
  induction a as [|x a IH]; [reflexivity|].
  change (String x (a +:+ "") = String x a). now rewrite IH.
Qed.







End Files.





(** ** The lock *)

Section Lock.
Context `{C : Collaborators}.

Lemma fresh_step (a : action) (s s' : state) :
  fresh_inv s -> step a s = Some s' -> fresh_inv s'.
Proof.
  intros (F1 & F2) H.
  assert (Hnext : workers s !! next_rid s = None).
  { destruct (workers s !! next_rid s) as [w|] eqn:Hw; [|reflexivity].
    specialize (F1 _ _ Hw). lia. }
  step_cases H; unfold fresh_inv; cbn; rewrite ?Hpc in *; cbn in *;
    split; intros;
    repeat match goal with
           | H1 : Some _ = Some _ |- _ => injection H1 as <-
           end;
    try discriminate;
    inv_insert;
    try (destruct (F2 _ eq_refl) as [? ?]);
    try match goal with
        | H1 : exec_rid (server s) = Some _ |- _ => destruct (F2 _ H1) as [? ?]
        end;
    try match goal with
        | H1 : workers s !! _ = Some _ |- _ => pose proof (F1 _ _ H1)
        end;
    try (split; [lia|]);
    eauto using fresh_after_goto;
    try lia.
Qed.

Lemma fresh_start (a : args) (env : startup) (fs : gmap string string)
    (s0 : state) :
  run_server a env fs = Some s0 -> fresh_inv s0.
Proof.
  intros H. apply run_server_shape in H as (Hpc & Hw & _).
  unfold fresh_inv. rewrite Hpc, Hw. split; intros; discriminate.
Qed.

Lemma lock_held_step (a : action) (s s' : state) :
  fresh_inv s -> lock_held_inv s -> step a s = Some s' -> lock_held_inv s'.
Proof.
  intros (F1 & F2) Hheld H. unfold lock_held_inv in Hheld.
  step_cases H; unfold lock_held_inv; cbn;
    rewrite ?Hlock in *; rewrite ?Hpc in *; cbn in *;
    try exact I; try reflexivity;
    try (destruct (F2 _ eq_refl) as [? ?]);
    try (destruct (execution_lock s) as [[|holder]|]; cbn in *;
         try exact I; try discriminate; try assumption;
         destruct Hheld as (w0 & Hw0 & Hin0);
         try (destruct (decide (rid = holder)) as [-> | Hne];
              [ rewrite lookup_insert_eq;
                assert (w0 = w) by congruence; subst w0;
                unfold worker_in_lock in *; rewrite Hwpc in Hin0;
                try discriminate Hin0; eauto
              | rewrite lookup_insert_ne by exact Hne; eauto ]);
         eauto; fail);
    try (rewrite lookup_insert_eq; eexists; split; [reflexivity|];
         reflexivity).
  destruct (execution_lock s) as [[|holder]|]; auto.
  destruct Hheld as (w0 & Hw0 & Hin0). exists w0. split; [|exact Hin0].
  rewrite lookup_insert_ne; [exact Hw0 | congruence].
Qed.

Lemma lock_held_reachable (a : args) (env : startup)
    (fs : gmap string string) (s0 : state) (sched : list action) (s : state) :
  run_server a env fs = Some s0 -> run sched s0 = Some s -> lock_held_inv s.
Proof.
  intros Hstart Hrun.
  assert (Hinv : fresh_inv s /\ lock_held_inv s); [|now destruct Hinv].
  eapply (run_invariant (fun s => fresh_inv s /\ lock_held_inv s));
    [| | exact Hrun].
  - intros a' s1 s2 [Hf Hl] Hstep. split.
    + eapply fresh_step; eauto.
    + eapply lock_held_step; eauto.
  - split; [eapply fresh_start; eauto|].
    apply run_server_shape in Hstart as (_ & _ & _ & Hlock & _).
    unfold lock_held_inv. now rewrite Hlock.
Qed.

(** the holder's next statement can always be taken, and it releases
    the lock or leaves one statement fewer before the release *)
Lemma holder_advances (s : state) (who : thread_id) (io : option exn) :
  lock_held_inv s -> execution_lock s = Some who ->
  exists s',
    step (step_of who io) s = Some s'
    /\ (execution_lock s' = None
        \/ (execution_lock s' = Some who /\ (lock_rank s' < lock_rank s)%nat)).
Proof.
  unfold lock_held_inv, lock_rank. intros Hheld Hlock. rewrite Hlock in *.
  destruct who as [|rid]; cbn [step_of step].
  - unfold serve.
    destruct (server s) eqn:Hpc; try discriminate Hheld;
      try (destruct (is_executing s));
      eexists; (split; [reflexivity|]); cbn; rewrite ?Hlock; cbn; auto;
      right; split; auto.
  - destruct Hheld as (w & Hw & Hin). unfold work. rewrite Hw.
    unfold worker_in_lock in Hin.
    destruct (w_pc w) eqn:Hwpc; try discriminate Hin;
      eexists; (split; [reflexivity|]); cbn; rewrite ?Hlock; cbn; auto.
    right. split; [reflexivity|]. rewrite lookup_insert_eq. cbn. lia.
Qed.

End Lock.

(** X5: in every run of a started server the lock is held only by a
    thread inside its [with execution_lock] block; the holder's next
    statement can always be taken, and each one releases the lock or
    brings the release nearer (at most three statements away), so the
    lock is never kept. *)
Theorem lock_is_released `{C : Collaborators}
    (a : args) (env : startup) (fs : gmap string string) (s0 : state)
    (sched : list action) (s : state) (who : thread_id) (io : option exn) :
  run_server a env fs = Some s0 -> run sched s0 = Some s ->
  execution_lock s = Some who ->
  lock_held_inv s
  /\ (1 <= lock_rank s <= 3)%nat
  /\ exists s',
      step (step_of who io) s = Some s'
      /\ (execution_lock s' = None
          \/ (execution_lock s' = Some who /\ (lock_rank s' < lock_rank s)%nat)).
Proof.
  intros Hstart Hrun Hlock.
  pose proof (lock_held_reachable _ _ _ _ _ _ Hstart Hrun) as Hheld.
  split; [exact Hheld|]. split; [|now apply holder_advances].
  unfold lock_held_inv, lock_rank in *. rewrite Hlock in *.
  destruct who as [|rid].
  - destruct (server s); try discriminate Hheld; cbn; lia.
  - destruct Hheld as (w & -> & Hin). unfold worker_in_lock in Hin.
    destruct (w_pc w); try discriminate Hin; cbn; lia.
Qed.

Lemma lock_is_released_witness :
  exists s',
    execution_lock Demo.locked = Some ServerThread
    /\ step (Serve None) Demo.locked = Some s'
    /\ execution_lock s' = None.
Proof.
  destruct (lock_is_released Demo.no_log Demo.env ∅ Demo.idle
              [Demo.execute Demo.body_print; Demo.go; Demo.go; Demo.go]
              Demo.locked ServerThread None)
    as (_ & _ & s' & Hstep & Hfree);
    [vm_compute; reflexivity | vm_compute; reflexivity
    | vm_compute; reflexivity |].
  exists s'. split; [vm_compute; reflexivity|]. split; [exact Hstep|].
  destruct Hfree as [Hfree | [Hkept _]]; [exact Hfree|].
  exfalso. vm_compute in Hstep. injection Hstep as <-.
  vm_compute in Hkept. discriminate Hkept.
Defined.

(** ** The worker's order *)

Section WorkerOrder.
Context `{C : Collaborators}.

Lemma release_first_step (a : action) (s s' : state) :
  release_first s -> step a s = Some s' -> release_first s'.
Proof.
  intros (Hord & Hpast) H.
  step_cases H; unfold release_first; cbn; rewrite ?Hpc in *;
    try match goal with
        | Hw : workers s !! _ = Some ?w, Hwpc : w_pc ?w = _ |- _ =>
            let Hin := fresh "Hin" in
            try (assert (Hin : past_clear w = true)
                   by (unfold past_clear; rewrite Hwpc; reflexivity);
                 pose proof (Hpast _ _ Hw Hin))
        end;
    repeat split; try (intros; discriminate); intros; inv_insert;
    cbn in *; try discriminate;
    repeat match goal with
           | H1 : LogAppend _ _ = LogAppend _ _ |- _ => injection H1 as <- <-
           end;
    eauto using list_elem_of_here, list_elem_of_further.
Qed.

Lemma cleared_before_log_precedes (t : list event) (rid : nat) (text : string) :
  cleared_before_log t ->
  precedes (FlagWrite (WorkerThread rid) false)
    (LogAppend (WorkerThread rid) text) t.
Proof.
  intros Hord later. revert t Hord.
  induction later as [|x later IH]; intros t Hord earlier ->; simpl in Hord.
  - destruct Hord as [Hhead _]. eapply Hhead; eauto.
  - destruct Hord as [_ Hrest]. eapply IH; eauto.
Qed.

End WorkerOrder.

(** X6: in every run of a started server, whatever the interleaving,
    each record a worker appends to the transcript comes after that
    worker's clearing of the busy flag. *)
Theorem worker_logs_after_release `{C : Collaborators}
    (a : args) (env : startup) (fs : gmap string string) (s0 : state)
    (sched : list action) (s : state) (rid : nat) (text : string) :
  run_server a env fs = Some s0 -> run sched s0 = Some s ->
  precedes (FlagWrite (WorkerThread rid) false)
    (LogAppend (WorkerThread rid) text) (trace s).
Proof.
  intros Hstart Hrun.
  assert (Hinv : release_first s).
  { eapply run_invariant; [apply release_first_step | | exact Hrun].
    apply run_server_shape in Hstart as (_ & Hw & _ & _ & _ & _ & Ht).
    split.
    - induction Ht as [|e t He _ IH]; simpl; [exact I|].
      split; [|exact IH]. intros r x ->. contradiction.
    - intros r w. rewrite Hw. discriminate. }
  apply cleared_before_log_precedes. apply Hinv.
Qed.

Lemma worker_logs_after_release_witness :
  exists s text,
    run [Demo.execute Demo.body_print; Demo.go; Demo.go; Demo.go; Demo.go;
         Demo.go; Demo.go; Work 0 None; Work 0 None; Work 0 None; Work 0 None;
         Work 0 None; Work 0 None; Work 0 None; Work 0 None] Demo.logging
    = Some s
    /\ LogAppend (WorkerThread 0) text ∈ trace s
    /\ precedes (FlagWrite (WorkerThread 0) false)
         (LogAppend (WorkerThread 0) text) (trace s).
Proof.
  eexists. eexists. split; [vm_compute; reflexivity|]. split.
  - apply list_elem_of_here.
  - apply (worker_logs_after_release Demo.with_log Demo.env ∅ Demo.logging
             [Demo.execute Demo.body_print; Demo.go; Demo.go; Demo.go; Demo.go;
              Demo.go; Demo.go; Work 0 None; Work 0 None; Work 0 None;
              Work 0 None; Work 0 None; Work 0 None; Work 0 None; Work 0 None]);
      vm_compute; reflexivity.
Defined.

(** ** Once *)

Section Once.
Context `{C : Collaborators}.

Lemma count_runs_cons (rid : nat) (e : event) (t : list event) :
  count_runs rid (e :: t)
  = ((if is_run_of rid e then 1 else 0) + count_runs rid t)%nat.
Proof. unfold count_runs. cbn. now destruct (is_run_of rid e). Qed.

Lemma count_logs_cons (rid : nat) (e : event) (t : list event) :
  count_logs rid (e :: t)
  = ((if is_log_of rid e then 1 else 0) + count_logs rid t)%nat.
Proof. unfold count_logs. cbn. now destruct (is_log_of rid e). Qed.

#[local] Arguments count_runs : simpl never.
#[local] Arguments count_logs : simpl never.

Lemma once_step (a : action) (s s' : state) :
  once_inv s -> step a s = Some s' -> once_inv s'.
Proof.
  intros [Hfresh Hall] H. split; [eapply fresh_step; eauto|].
  destruct Hfresh as (F1 & F2).
  intros rid0. destruct (Hall rid0) as (Hr & Hl & Hm). clear Hall.
  step_cases H; cbn; rewrite ?Hpc in *; cbn in *;
    try (destruct (F2 _ eq_refl) as [? Hnone]);
    try match goal with
        | |- context [<[?r := _]> (workers s) !! rid0] =>
            destruct (decide (r = rid0)) as [-> | Hne];
            [ rewrite lookup_insert_eq
            | rewrite lookup_insert_ne by exact Hne ]
        end;
    rewrite ?Hw, ?Hnone in Hm;
    rewrite ?count_runs_cons, ?count_logs_cons; cbn [is_run_of is_log_of];
    rewrite ?Nat.eqb_refl;
    repeat match goal with
           | Hne : ?x <> ?y |- context [Nat.eqb ?x ?y] =>
               rewrite (proj2 (Nat.eqb_neq x y) Hne)
           end;
    unfold before_run, is_done in *; cbn; rewrite ?Hwpc in Hm;
    try (destruct Hm as [Hm1 Hm2]);
    try specialize (Hm1 eq_refl); try specialize (Hm2 eq_refl);
    try (repeat split; try intros; try discriminate; try lia; auto; fail).
Qed.

Lemma once_start (a : args) (env : startup) (fs : gmap string string)
    (s0 : state) :
  run_server a env fs = Some s0 -> once_inv s0.
Proof.
  intros H. split; [eapply fresh_start; eauto|].
  apply run_server_shape in H as (_ & Hw & _ & _ & _ & _ & Ht).
  intros rid. rewrite Hw, lookup_empty.
  destruct (start_counts _ rid Ht) as (_ & -> & ->). repeat split; lia.
Qed.

End Once.

(** X7: in every run of a started server the unit of a request is run
    at most once and its worker appends at most one record; before the
    worker reaches its [run_cell] nothing of the request has been run,
    and before the worker is through nothing has been logged. *)
Theorem unit_runs_at_most_once `{C : Collaborators}
    (a : args) (env : startup) (fs : gmap string string) (s0 : state)
    (sched : list action) (s : state) (rid : nat) :
  run_server a env fs = Some s0 -> run sched s0 = Some s ->
  (count_runs rid (trace s) <= 1)%nat /\ (count_logs rid (trace s) <= 1)%nat
  /\ (forall w, workers s !! rid = Some w ->
        (before_run w = true -> count_runs rid (trace s) = 0%nat)
        /\ (is_done w = false -> count_logs rid (trace s) = 0%nat))
  /\ (workers s !! rid = None ->
      count_runs rid (trace s) = 0%nat /\ count_logs rid (trace s) = 0%nat).
Proof.
  intros Hstart Hrun.
  assert (Hinv : once_inv s).
  { eapply run_invariant; [apply once_step | | exact Hrun].
    eapply once_start; eauto. }
  destruct Hinv as [_ Hall]. destruct (Hall rid) as (Hr & Hl & Hm).
  split; [exact Hr|]. split; [exact Hl|]. split.
  - intros w Hw. now rewrite Hw in Hm.
  - intros Hnone. now rewrite Hnone in Hm.
Qed.

Lemma unit_runs_at_most_once_witness :
  exists s,
    run [Demo.execute Demo.body_print; Demo.go; Demo.go; Demo.go; Demo.go;
         Demo.go; Demo.go; Work 0 None; Work 0 None; Work 0 None; Work 0 None;
         Work 0 None; Work 0 None; Work 0 None; Work 0 None] Demo.logging
    = Some s
    /\ count_runs 0 (trace s) = 1%nat /\ count_logs 0 (trace s) = 1%nat
    /\ (count_runs 0 (trace s) <= 1)%nat.
Proof.
  eexists. split; [vm_compute; reflexivity|].
  split; [vm_compute; reflexivity|]. split; [vm_compute; reflexivity|].
  apply (unit_runs_at_most_once Demo.with_log Demo.env ∅ Demo.logging
           [Demo.execute Demo.body_print; Demo.go; Demo.go; Demo.go; Demo.go;
            Demo.go; Demo.go; Work 0 None; Work 0 None; Work 0 None;
            Work 0 None; Work 0 None; Work 0 None; Work 0 None; Work 0 None]);
    vm_compute; reflexivity.
Defined.


(** ** A whole execution *)

Section Cycle.
Context `{C : Collaborators}.




End Cycle.



(** ** What the worker records *)

(** the error text of a cell that returned starts with the captured
    standard error *)
Lemma classify_rest (out err : string) (r : exec_result) :
  exists rest,
    classify out err r = err +:+ rest
    /\ (forall e, error_before_exec r = Some e ->
          rest = "Error before execution: " +:+ exn_str e)
    /\ (error_before_exec r = None -> error_in_exec r = None -> rest = "").
Proof.
  unfold classify. destruct (error_before_exec r) as [e|].
  - exists ("Error before execution: " +:+ exn_str e).
    split; [reflexivity|]. split; [now intros ? [= <-] | discriminate].
  - destruct (error_in_exec r) as [e|].
    + unfold truthy.
      destruct (String.eqb_spec out "") as [-> | Hout],
               (String.eqb_spec err "") as [-> | Herr]; cbn.
      * exists (exn_traceback e). repeat split; discriminate.
      * exists "". rewrite append_empty_r. repeat split; discriminate.
      * exists "". repeat split; discriminate.
      * exists "". rewrite append_empty_r. repeat split; discriminate.
    + exists "". rewrite append_empty_r. repeat split; auto; discriminate.
Qed.

(** X9: for a cell that returned, when the echo of the captured streams
    raises nothing, the worker records the captured standard output as
    it is, and an error text that starts with the captured standard
    error: nothing more when the cell ran without error, and [Error
    before execution: ] with the text of the error when the engine
    refused the cell before running it.  The flag, the lock and the
    files are not touched. *)
Theorem returned_cell_outcome `{C : Collaborators}
    (s : state) (rid : nat) (w : worker) (out err : string) (r : exec_result) :
  workers s !! rid = Some w -> w_pc w = WClassify out err r ->
  exists s' (result : gmap string string) rest,
    run [Work rid None; Work rid None] s = Some s'
    /\ workers s' !! rid = Some (goto w (WFinally result None))
    /\ result !! "output" = Some out
    /\ result !! "error" = Some (err +:+ rest)
    /\ (forall e, error_before_exec r = Some e ->
          rest = "Error before execution: " +:+ exn_str e)
    /\ (error_before_exec r = None -> error_in_exec r = None -> rest = "")
    /\ is_executing s' = is_executing s
    /\ execution_lock s' = execution_lock s /\ files s' = files s.
Proof.
  intros Hw Hpc.
  erewrite run_cons by (eapply work_classify; [eassumption.. | now right]).
  erewrite run_cons
    by (eapply work_echo_error; [apply worker_after | reflexivity | now right]).
  destruct (classify_rest out err r) as (rest & Hclass & Hbefore & Hnone).
  eexists. exists (result_dict out (classify out err r)), rest.
  split; [reflexivity|]. split; [apply worker_after|]. unfold result_dict.
  rewrite lookup_insert_eq, lookup_insert_ne, lookup_insert_eq by discriminate.
  rewrite Hclass. unfold echo_stderr, echo_stdout.
  repeat match goal with
         | |- context [if truthy ?x then _ else _] => destruct (truthy x)
         end; repeat split; auto.
Qed.

Lemma returned_cell_outcome_witness :
  exists s' (result : gmap string string),
    run [Work 0 None; Work 0 None] Demo.printed = Some s'
    /\ workers s' !! 0%nat
       = Some {| code_lines := ["x = 1"; "print(x)"];
                 code_str := "x = 1" +:+ Text.nl +:+ "print(x)";
                 w_pc := WFinally result None |}
    /\ result !! "output" = Some ("1" +:+ Text.nl)
    /\ result !! "error" = Some "".
Proof.
  destruct (returned_cell_outcome Demo.printed 0 _ _ _ _ eq_refl eq_refl)
    as (s' & result & rest & Hstep & Hw & Hout & Herr & _ & Hnone & _).
  exists s', result. split; [exact Hstep|]. split; [exact Hw|].
  split; [exact Hout|]. rewrite Herr, (Hnone eq_refl eq_refl). reflexivity.
Defined.

(** X10: what the worker records when something other than the cell
    fails inside the [try].  If [run_cell] raised an [Exception], the
    rendering of it is the error text and the output is empty; if it let
    a [BaseException] through, nothing is recorded and the exception
    goes on after the [finally].  If the echo of the output or of the
    error text raised, the rendering of that failure is the error text,
    the captured standard output is recorded and echoed by the [except]
    block (a second time, when the [try] had echoed it), and the
    captured standard error is not recorded.  If a write of the [except]
    block raises as well, nothing is recorded.  In each case the worker
    goes on to the [finally] with the flag as it was. *)
Theorem internal_failure_outcome `{C : Collaborators}
    (s : state) (rid : nat) (w : worker) :
  workers s !! rid = Some w ->
  let me := WorkerThread rid in
  let report e :=
    Console me (Markup ("[red]Error during background execution:"
                        +:+ exn_traceback e)) in
  (forall sh sh' e io io',
      w_pc w = WRun -> ipshell s = Some sh ->
      run_cell sh (code_str w) false = Raised sh' e ->
      exists s',
        run [Work rid io; Work rid io'; Work rid None] s = Some s'
        /\ workers s' !! rid
           = Some (goto w (WFinally (result_dict "" (exn_traceback e)) None))
        /\ ipshell s' = Some sh' /\ is_executing s' = is_executing s
        /\ trace s' = report e :: RunCell rid (code_str w) :: trace s)
  /\ (forall sh sh' e io,
        w_pc w = WRun -> ipshell s = Some sh ->
        run_cell sh (code_str w) false = Escaped sh' e ->
        exists s',
          step (Work rid io) s = Some s'
          /\ workers s' !! rid = Some (goto w (WFinally ∅ (Some e)))
          /\ ipshell s' = Some sh' /\ is_executing s' = is_executing s
          /\ trace s' = RunCell rid (code_str w) :: trace s)
  /\ (forall out err r e,
        w_pc w = WClassify out err r -> out <> "" ->
        exists s',
          run [Work rid (Some e); Work rid None; Work rid None] s = Some s'
          /\ workers s' !! rid
             = Some (goto w (WFinally (result_dict out (exn_traceback e)) None))
          /\ is_executing s' = is_executing s
          /\ trace s' = report e :: Console me (Raw out) :: trace s)
  /\ (forall out error_output e,
        w_pc w = WEchoError out error_output -> error_output <> "" ->
        exists s',
          run [Work rid (Some e); Work rid None; Work rid None] s = Some s'
          /\ workers s' !! rid
             = Some (goto w (WFinally (result_dict out (exn_traceback e)) None))
          /\ is_executing s' = is_executing s
          /\ trace s' = report e :: trace (echo_stdout me out s))
  /\ (forall output e e2,
        w_pc w = WExcept (Some output) e -> output <> "" ->
        exists s',
          step (Work rid (Some e2)) s = Some s'
          /\ workers s' !! rid = Some (goto w (WFinally ∅ (Some e2)))
          /\ is_executing s' = is_executing s /\ trace s' = trace s)
  /\ (forall output error_output e2,
        w_pc w = WReport output error_output ->
        exists s',
          step (Work rid (Some e2)) s = Some s'
          /\ workers s' !! rid = Some (goto w (WFinally ∅ (Some e2)))
          /\ is_executing s' = is_executing s /\ trace s' = trace s).
Proof.
  intros Hw me report. repeat apply conj.
  - intros sh sh' e io io' Hpc Hsh Hcell.
    erewrite run_cons by (eapply work_run; eassumption).
    rewrite Hcell. cbn [after_cell fst snd].
    erewrite run_cons
      by (eapply work_except; [apply worker_after | reflexivity | now left]).
    erewrite run_cons by (eapply work_report; [apply worker_after | reflexivity]).
    eexists. split; [reflexivity|]. split; [apply worker_after|].
    cbn. auto.
  - intros sh sh' e io Hpc Hsh Hcell.
    erewrite work_run by eassumption. rewrite Hcell. cbn [after_cell fst snd].
    eexists. split; [reflexivity|]. split; [apply worker_after|].
    cbn. auto.
  - intros out err r e Hpc Hout. apply truthy_true in Hout.
    erewrite run_cons by (eapply work_classify_raises; eassumption).
    erewrite run_cons
      by (eapply work_except; [apply worker_after | reflexivity | now right]).
    erewrite run_cons by (eapply work_report; [apply worker_after | reflexivity]).
    eexists. split; [reflexivity|]. split; [apply worker_after|].
    change (or_empty (Some out)) with out.
    unfold echo_stdout. rewrite Hout. cbn. auto.
  - intros out error_output e Hpc Herr. apply truthy_true in Herr.
    erewrite run_cons by (eapply work_echo_error_raises; eassumption).
    erewrite run_cons
      by (eapply work_except; [apply worker_after | reflexivity | now right]).
    erewrite run_cons by (eapply work_report; [apply worker_after | reflexivity]).
    eexists. split; [reflexivity|]. split; [apply worker_after|].
    change (or_empty (Some out)) with out.
    unfold echo_stdout. destruct (truthy out); cbn; auto.
  - intros output e e2 Hpc Hout. apply truthy_true in Hout.
    cbn [step]. unfold work. rewrite Hw, Hpc.
    change (or_empty (Some output)) with output. rewrite Hout.
    eexists. split; [reflexivity|]. split; [apply worker_after|]. cbn. auto.
  - intros output error_output e2 Hpc. cbn [step]. unfold work.
    rewrite Hw, Hpc.
    eexists. split; [reflexivity|]. split; [apply worker_after|]. cbn. auto.
Qed.

Lemma internal_failure_outcome_witness :
  exists s',
    run [Work 0 (Some (raise_ "BrokenPipeError" "[Errno 32] Broken pipe"));
         Work 0 None; Work 0 None] Demo.printed = Some s'
    /\ workers s' !! 0%nat
       = Some {| code_lines := ["x = 1"; "print(x)"];
                 code_str := "x = 1" +:+ Text.nl +:+ "print(x)";
                 w_pc := WFinally
                           (result_dict ("1" +:+ Text.nl)
                              (exn_traceback
                                 (raise_ "BrokenPipeError"
                                    "[Errno 32] Broken pipe"))) None |}.
Proof.
  destruct (internal_failure_outcome Demo.printed 0 _ eq_refl)
    as (_ & _ & Hecho & _).
  destruct (Hecho _ _ _ (raise_ "BrokenPipeError" "[Errno 32] Broken pipe")
              eq_refl ltac:(discriminate)) as (s' & Hrun & Hw & _).
  exists s'. split; [exact Hrun | exact Hw].
Defined.

(** ** Substitution *)

Section SubFacts.
Import Regex.

Lemma length_app (a b : string) :
  String.length (a +:+ b) = (String.length a + String.length b)%nat.
Proof.
  induction a as [|x a IH]; [reflexivity|].
  change (S (String.length (a +:+ b)) = S (String.length a + String.length b)).
  now rewrite IH.
Qed.

(** with a continuation that takes any rest, the greedy star takes the
    longest run *)
Lemma star_longest {A} (p : ascii -> bool) (f : string -> A) (s : string) :
  star p s (fun rest => Some (f rest)) = Some (f (Text.drop_while p s)).
Proof.
  induction s as [|c t IH]; [reflexivity|].
  simpl. destruct (p c); [now rewrite IH | reflexivity].
Qed.

Lemma drop_while_length (p : ascii -> bool) (s : string) :
  (String.length (Text.drop_while p s) <= String.length s)%nat.
Proof.
  induction s as [|c t IH]; simpl; [lia|]. destruct (p c); simpl; lia.
Qed.

Lemma plus_match_len (p : ascii -> bool) (c : ascii) (t : string) :
  match_len (Plus p) (String c t)
  = if p c
    then Some (S (String.length t - String.length (Text.drop_while p t)))
    else None.
Proof.
  unfold match_len. cbn [re_match]. destruct (p c); [|reflexivity].
  rewrite (star_longest p
             (fun rest => (String.length (String c t) - String.length rest)%nat)).
  pose proof (drop_while_length p t). cbn [String.length]. f_equal. lia.
Qed.

Lemma all_chars_ext (q1 q2 : ascii -> bool) (s : string) :
  (forall c, q1 c = q2 c) -> all_chars q1 s = all_chars q2 s.
Proof.
  intros H. induction s as [|c t IH]; [reflexivity|].
  cbn [all_chars]. now rewrite H, IH.
Qed.

Lemma all_chars_app (q : ascii -> bool) (a b : string) :
  all_chars q (a +:+ b) = all_chars q a && all_chars q b.
Proof.
  induction a as [|x a IH]; [reflexivity|].
  change (q x && all_chars q (a +:+ b) = q x && all_chars q a && all_chars q b).
  now rewrite IH, andb_assoc.
Qed.

(** what [sub] leaves of the text are characters outside the class *)
Lemma sub_plus_chars (p : ascii -> bool) (repl : string) :
  all_chars (fun c => negb (p c)) repl = true ->
  forall (s : string) (skip : nat),
    all_chars (fun c => negb (p c)) (sub_from (Plus p) repl skip s) = true.
Proof.
  intros Hrepl. induction s as [|c t IH]; intros skip; [reflexivity|].
  cbn [sub_from]. destruct skip as [|n]; [|apply IH].
  rewrite plus_match_len. destruct (p c) eqn:Hc.
  - now rewrite all_chars_app, Hrepl, IH.
  - cbn [all_chars]. now rewrite Hc, IH.
Qed.

(** a text without a character of the class is left as it is *)
Lemma sub_plus_fixed (p : ascii -> bool) (repl : string) (s : string) :
  all_chars (fun c => negb (p c)) s = true -> sub (Plus p) repl s = s.
Proof.
  unfold sub. induction s as [|c t IH]; [reflexivity|].
  cbn [all_chars sub_from]. intros H. apply andb_true_iff in H as [Hc Ht].
  rewrite plus_match_len. apply negb_true_iff in Hc. rewrite Hc.
  now rewrite IH.
Qed.

Lemma all_chars_mem (q : ascii -> bool) (c : ascii) (s : string) :
  all_chars q s = true -> q c = false -> Text.mem c s = false.
Proof.
  intros Hall Hc. induction s as [|x t IH]; [reflexivity|].
  cbn [all_chars Text.mem] in *. apply andb_true_iff in Hall as [Hx Ht].
  rewrite (IH Ht), orb_false_r. destruct (Ascii.eqb_spec c x); [|reflexivity].
  congruence.
Qed.

Lemma mem_app (c : ascii) (a b : string) :
  Text.mem c (a +:+ b) = Text.mem c a || Text.mem c b.
Proof.
  induction a as [|x a IH]; [reflexivity|].
  change (Ascii.eqb c x || Text.mem c (a +:+ b)
          = Ascii.eqb c x || Text.mem c a || Text.mem c b).
  now rewrite IH, orb_assoc.
Qed.

Lemma safe_chars (log_name : string) :
  all_chars name_char (safe_log_name log_name) = true.
Proof.
  unfold safe_log_name, sub.
  pose proof (sub_plus_chars (fun c => negb (name_char c)) "_" eq_refl
                log_name 0) as H.
  erewrite (all_chars_ext) in H; [exact H|].
  intros c. apply negb_involutive.
Qed.

End SubFacts.

(** X11: the name [setup_logging] puts in the file name has only word
    characters and hyphens, so no path separator; sanitizing it again
    changes nothing, and a name of such characters is kept as it is.
    With a time stamp without separator the file name has none, and the
    log file lies in the [.pyrepl] directory itself. *)
Theorem safe_log_name_safe (log_name stamp : string) :
  all_chars name_char (safe_log_name log_name) = true
  /\ Text.mem "/" (safe_log_name log_name) = false
  /\ safe_log_name (safe_log_name log_name) = safe_log_name log_name
  /\ (all_chars name_char log_name = true -> safe_log_name log_name = log_name)
  /\ (Text.mem "/" stamp = false ->
      Text.mem "/" (log_file_name stamp (Some log_name)) = false).
Proof.
  assert (Hfixed : forall n, all_chars name_char n = true -> safe_log_name n = n).
  { intros n Hn. unfold safe_log_name. apply sub_plus_fixed.
    erewrite all_chars_ext; [exact Hn|]. intros c. apply negb_involutive. }
  assert (Hslash : forall n, Text.mem "/" (safe_log_name n) = false).
  { intros n. eapply all_chars_mem; [apply safe_chars | reflexivity]. }
  split; [apply safe_chars|]. split; [apply Hslash|].
  split; [apply Hfixed, safe_chars|]. split; [apply Hfixed|].
  intros Hstamp. unfold log_file_name. destruct log_name as [|c n].
  - now rewrite mem_app, Hstamp.
  - now rewrite !mem_app, Hstamp, Hslash.
Qed.

Lemma safe_log_name_safe_witness :
  safe_log_name "a-b_c" = "a-b_c"
  /\ Text.mem "/" (log_file_name "Nov032026-101500" (Some "../../etc/x y"))
     = false.
Proof.
  destruct (safe_log_name_safe "a-b_c" "") as (_ & _ & _ & Hkeep & _).
  destruct (safe_log_name_safe "../../etc/x y" "Nov032026-101500")
    as (_ & _ & _ & _ & Hfile).
  split; [apply Hkeep; reflexivity | apply Hfile; reflexivity].
Defined.

(** ** What the sanitizer removes *)

Section SanitizerFacts.
Import Regex.

Lemma strip_is_sub (s : string) : strip_ansi_codes s = sub ansi_regex "" s.
Proof. now destruct s. Qed.

Lemma subseq_drop :
  forall (b a : string) (x : ascii),
    is_subseq (String x a) b = true -> is_subseq a b = true.
Proof.
  induction b as [|y b IH]; intros a x H; [discriminate|].
  destruct a as [|z a]; [reflexivity|].
  cbn [is_subseq] in *.
  destruct (Ascii.eqb x y), (Ascii.eqb z y); eauto.
Qed.

Lemma subseq_skip (a b : string) (c : ascii) :
  is_subseq a b = true -> is_subseq a (String c b) = true.
Proof.
  destruct a as [|x a]; [reflexivity|]. intros H. cbn [is_subseq].
  destruct (Ascii.eqb x c); [now apply subseq_drop in H | exact H].
Qed.

(** a substitution by the empty text only leaves characters out *)
Lemma sub_from_subseq (r : re) :
  forall (s : string) (skip : nat),
    is_subseq (sub_from r "" skip s) s = true.
Proof.
  induction s as [|c t IH]; intros skip; [reflexivity|].
  cbn [sub_from]. destruct skip as [|n]; [|apply subseq_skip, IH].
  destruct (match_len r (String c t)) as [[|n]|].
  - cbn [is_subseq]. now rewrite Ascii.eqb_refl.
  - change ("" +:+ ?x) with x. apply subseq_skip, IH.
  - cbn [is_subseq]. now rewrite Ascii.eqb_refl.
Qed.

Lemma sub_length (s : string) :
  (String.length (sub ansi_regex "" s) <= String.length s)%nat.
Proof. unfold sub. pose proof (sub_from_length ansi_regex s 0). lia. Qed.

(** the text before the first ESC is kept *)
Lemma sub_keep_prefix (pre s : string) :
  Text.mem ESC pre = false ->
  sub ansi_regex "" (pre +:+ s) = pre +:+ sub ansi_regex "" s.
Proof.
  unfold sub. induction pre as [|c t IH]; [reflexivity|].
  cbn [Text.mem]. intros H. apply orb_false_iff in H as [Hc Ht].
  change (String c t +:+ s) with (String c (t +:+ s)).
  cbn [sub_from].
  pose proof (escape_at_first c (t +:+ s) Hc) as Hat. unfold escape_at in Hat.
  destruct (match_len ansi_regex (String c (t +:+ s))); [discriminate|].
  now rewrite (IH Ht).
Qed.

(** passing over a match of [n] characters *)
Lemma sub_from_skip (r : re) (repl : string) :
  forall (a b : string),
    sub_from r repl (String.length a) (a +:+ b) = sub_from r repl 0 b.
Proof.
  induction a as [|c t IH]; intros b.
  - now destruct b.
  - change (String c t +:+ b) with (String c (t +:+ b)). cbn. apply IH.
Qed.

Lemma star_prefix {A} (p : ascii -> bool) (k : string -> option A)
    (a b : string) (x : A) :
  all_chars p a = true -> star p b k = Some x -> star p (a +:+ b) k = Some x.
Proof.
  intros Ha Hb. induction a as [|c t IH]; [exact Hb|].
  cbn [all_chars] in Ha. apply andb_true_iff in Ha as [Hc Ht].
  change (String c t +:+ b) with (String c (t +:+ b)).
  cbn [star]. now rewrite Hc, (IH Ht).
Qed.

Lemma star_stop {A} (p : ascii -> bool) (k : string -> option A)
    (c : ascii) (t : string) :
  p c = false -> star p (String c t) k = k (String c t).
Proof. intros Hc. cbn [star]. now rewrite Hc. Qed.

Lemma in_range_above (lo hi lo' hi' : nat) (c : ascii) :
  (hi < lo')%nat -> Text.in_range lo' hi' c = true ->
  Text.in_range lo hi c = false.
Proof.
  unfold Text.in_range. intros Hlt H. apply andb_true_iff in H as [H1 _].
  apply Nat.leb_le in H1. apply andb_false_iff. right.
  apply Nat.leb_gt. lia.
Qed.

Lemma in_range_bounds (lo hi : nat) (c : ascii) :
  Text.in_range lo hi c = true -> (lo <= Text.code c <= hi)%nat.
Proof.
  unfold Text.in_range. intros H. apply andb_true_iff in H as [H1 H2].
  apply Nat.leb_le in H1. apply Nat.leb_le in H2. lia.
Qed.

(** the intermediate bytes, then the final byte, after the parameters *)
Lemma star_inter {A} (k : string -> option A) (inter rest : string)
    (final : ascii) (x : A) :
  all_chars (Text.in_range 32 47) inter = true ->
  Text.in_range 64 126 final = true ->
  k rest = Some x ->
  star (Text.in_range 32 47) (inter +:+ String final rest)
    (fun u => re_match (Chr (Text.in_range 64 126)) u k) = Some x.
Proof.
  intros Hi Hf Hk. apply star_prefix; [exact Hi|].
  rewrite star_stop by (eapply in_range_above; [|exact Hf]; lia).
  cbn [re_match]. now rewrite Hf.
Qed.

Lemma star_params {A} (k : string -> option A) (params inter rest : string)
    (final : ascii) (x : A) :
  all_chars (Text.in_range 48 63) params = true ->
  all_chars (Text.in_range 32 47) inter = true ->
  Text.in_range 64 126 final = true ->
  k rest = Some x ->
  star (Text.in_range 48 63) (params +:+ inter +:+ String final rest)
    (fun t => star (Text.in_range 32 47) t
                (fun u => re_match (Chr (Text.in_range 64 126)) u k)) = Some x.
Proof.
  intros Hp Hi Hf Hk. apply star_prefix; [exact Hp|].
  destruct inter as [|c inter'].
  - change ("" +:+ ?y) with y.
    rewrite star_stop by (eapply in_range_above; [|exact Hf]; lia).
    now apply (star_inter k "" rest final x).
  - change (String c inter' +:+ ?y) with (String c (inter' +:+ y)).
    pose proof Hi as Hi'. cbn [all_chars] in Hi'.
    apply andb_true_iff in Hi' as [Hc _].
    rewrite star_stop.
    + now apply (star_inter k (String c inter') rest final x).
    + apply in_range_bounds in Hc. unfold Text.in_range.
      apply andb_false_iff. left. apply Nat.leb_gt. lia.
Qed.

(** a control sequence: ESC, [[], parameter bytes, intermediate bytes and
    a final byte *)
Lemma csi_match (params inter rest : string) (final : ascii) :
  all_chars (Text.in_range 48 63) params = true ->
  all_chars (Text.in_range 32 47) inter = true ->
  Text.in_range 64 126 final = true ->
  match_len ansi_regex
    (String ESC (String "[" (params +:+ inter +:+ String final rest)))
  = Some (S (String.length (String "[" (params +:+ inter +:+ String final "")))).
Proof.
  intros Hp Hi Hf. unfold match_len, ansi_regex.
  set (k := fun rest0 : string => Some (_ - String.length rest0)%nat).
  set (s := params +:+ inter +:+ String final rest).
  cbn [re_match]. unfold is_char at 1. rewrite Ascii.eqb_refl.
  change (Text.in_range 64 90 "[" || Text.in_range 92 95 "[") with false.
  cbv iota. unfold is_char. rewrite Ascii.eqb_refl.
  unfold s. apply (star_params k params inter rest final); auto.
  unfold k. f_equal. cbn [String.length]. rewrite !length_app.
  cbn [String.length]. lia.
Qed.

Lemma two_char_match (c : ascii) (rest : string) :
  Text.in_range 64 90 c || Text.in_range 92 95 c = true ->
  match_len ansi_regex (String ESC (String c rest)) = Some 2%nat.
Proof.
  intros Hc. unfold match_len, ansi_regex. cbn [re_match].
  unfold is_char at 1. rewrite Ascii.eqb_refl, Hc.
  f_equal. cbn [String.length]. lia.
Qed.

Lemma sub_from_match (r : re) (repl : string) (c : ascii) (t : string)
    (n : nat) :
  match_len r (String c t) = Some (S n) ->
  sub_from r repl 0 (String c t) = repl +:+ sub_from r repl n t.
Proof. intros H. cbn [sub_from]. now rewrite H. Qed.

Lemma sub_csi (params inter rest : string) (final : ascii) :
  all_chars (Text.in_range 48 63) params = true ->
  all_chars (Text.in_range 32 47) inter = true ->
  Text.in_range 64 126 final = true ->
  sub ansi_regex ""
    (String ESC (String "[" (params +:+ inter +:+ String final rest)))
  = sub ansi_regex "" rest.
Proof.
  intros Hp Hi Hf. unfold sub.
  rewrite (sub_from_match _ _ _ _ _ (csi_match params inter rest final Hp Hi Hf)).
  change ("" +:+ ?x) with x.
  replace (String "[" (params +:+ inter +:+ String final rest))
    with (String "[" (params +:+ inter +:+ String final "") +:+ rest).
  - apply sub_from_skip.
  - change (String "[" ?a +:+ rest) with (String "[" (a +:+ rest)).
    f_equal. rewrite !append_assoc. reflexivity.
Qed.

Lemma sub_two_char (c : ascii) (rest : string) :
  Text.in_range 64 90 c || Text.in_range 92 95 c = true ->
  sub ansi_regex "" (String ESC (String c rest)) = sub ansi_regex "" rest.
Proof.
  intros Hc. unfold sub.
  rewrite (sub_from_match _ _ _ _ _ (two_char_match c rest Hc)).
  reflexivity.
Qed.

End SanitizerFacts.

(** X12: the sanitizer only leaves characters out: its result is the
    text with some characters removed, in the same order, so it is never
    longer; it is shorter exactly when an escape sequence starts
    somewhere in the text, and a text without the ESC character comes
    back as it is. *)
Theorem strip_ansi_codes_only_deletes (s : string) :
  is_subseq (strip_ansi_codes s) s = true
  /\ (String.length (strip_ansi_codes s) <= String.length s)%nat
  /\ ((String.length (strip_ansi_codes s) < String.length s)%nat
      <-> contains_escape s = true)
  /\ (Text.mem ESC s = false -> strip_ansi_codes s = s).
Proof.
  rewrite strip_is_sub.
  split; [apply sub_from_subseq|]. split; [apply sub_length|]. split.
  - split; [|apply sub_shortens].
    intros Hlt. destruct (contains_escape s) eqn:Hc; [reflexivity|].
    rewrite (sub_no_match s Hc) in Hlt. lia.
  - intros Hesc. now apply sub_no_match, no_esc_no_escape.
Qed.

Lemma strip_ansi_codes_only_deletes_witness :
  strip_ansi_codes "plain text" = "plain text"
  /\ is_subseq (strip_ansi_codes (String ESC "[31mred")) (String ESC "[31mred")
     = true.
Proof.
  destruct (strip_ansi_codes_only_deletes "plain text") as (_ & _ & _ & Hsame).
  destruct (strip_ansi_codes_only_deletes (String ESC "[31mred"))
    as (Hsub & _).
  split; [apply Hsame; reflexivity | exact Hsub].
Defined.

(** X13: after a text without ESC, which is kept, the sanitizer removes
    a whole control sequence (ESC, [[], parameter bytes [0] to [?],
    intermediate bytes from the space to [/], one final byte from [@] to
    [~]) and goes on with the text after it; it removes ESC with one
    character from [@] to [Z] or from [\] to [_], and no more than these
    two; ESC before any other character, and ESC at the end of the text,
    are kept. *)
Theorem strip_ansi_codes_removes
    (pre params inter rest : string) (final c : ascii) :
  Text.mem ESC pre = false ->
  (all_chars (Text.in_range 48 63) params = true ->
   all_chars (Text.in_range 32 47) inter = true ->
   Text.in_range 64 126 final = true ->
   strip_ansi_codes
     (pre +:+ String ESC (String "[" (params +:+ inter +:+ String final rest)))
   = pre +:+ strip_ansi_codes rest)
  /\ (Text.in_range 64 90 c || Text.in_range 92 95 c = true ->
      strip_ansi_codes (pre +:+ String ESC (String c rest))
      = pre +:+ strip_ansi_codes rest)
  /\ (Text.in_range 64 95 c = false ->
      strip_ansi_codes (pre +:+ String ESC (String c rest))
      = pre +:+ String ESC (strip_ansi_codes (String c rest)))
  /\ strip_ansi_codes (pre +:+ String ESC "") = pre +:+ String ESC "".
Proof.
  intros Hpre. rewrite !strip_is_sub, !sub_keep_prefix by exact Hpre.
  split; [|split; [|split]].
  - intros Hp Hi Hf. f_equal. now apply sub_csi.
  - intros Hc. f_equal. now apply sub_two_char.
  - intros Hc. f_equal. unfold Regex.sub at 1. cbn [Regex.sub_from].
    assert (Hno : Regex.match_len ansi_regex (String ESC (String c rest)) = None).
    { unfold Regex.match_len, ansi_regex. cbn [Regex.re_match].
      unfold is_char at 1. rewrite Ascii.eqb_refl.
      assert (H1 : Text.in_range 64 90 c || Text.in_range 92 95 c = false).
      { unfold Text.in_range in *. apply andb_false_iff in Hc.
        apply orb_false_iff. split; apply andb_false_iff.
        - destruct Hc as [Hc | Hc]; [now left|].
          right. apply Nat.leb_gt in Hc. apply Nat.leb_gt. lia.
        - destruct Hc as [Hc | Hc]; [|now right].
          left. apply Nat.leb_gt in Hc. apply Nat.leb_gt. lia. }
      rewrite H1. unfold is_char.
      destruct (Ascii.eqb_spec "["%char c) as [<- | _]; [discriminate Hc|].
      reflexivity. }
    now rewrite Hno.
  - reflexivity.
Qed.

Lemma strip_ansi_codes_removes_witness :
  strip_ansi_codes ("ok " +:+ String ESC "[1;31m" +:+ "red")
  = "ok " +:+ strip_ansi_codes "red"
  /\ strip_ansi_codes (String ESC "]0;title")
     = strip_ansi_codes "0;title"
  /\ strip_ansi_codes (String ESC "(B")
     = String ESC (strip_ansi_codes "(B").
Proof.
  destruct (strip_ansi_codes_removes "ok " "1;31" "" "red" "m" "A" eq_refl)
    as (Hcsi & _).
  destruct (strip_ansi_codes_removes "" "" "" "0;title" "m" "]" eq_refl)
    as (_ & Htwo & _).
  destruct (strip_ansi_codes_removes "" "" "" "B" "m" "(" eq_refl)
    as (_ & _ & Hkept & _).
  split; [|split].
  - apply Hcsi; reflexivity.
  - apply Htwo; reflexivity.
  - apply Hkept; reflexivity.
Defined.
